(** * Type hierarchy tree model of the references view

    A shallow embedding of [src/types/model.ts] (the classes [TypeItem],
    [TypesModel] and [TypeItemDataProvider]) and of the helpers it
    imports, followed by the properties the specification states about
    them.

    Objects live in an explicit store: a [TypeItem] is an address into
    [heap], so that [Array.prototype.includes] / [indexOf] and the
    assignments to [children], [parent] and [expand] act on shared
    objects exactly as in the source.  Every array of the program
    ([roots] and each [children]) has a single owner, so arrays are kept
    inline as lists of addresses.  Asynchronous methods are functions in
    a small state-and-rejection monad; the single-threaded model of the
    host makes each [await] a sequencing point. *)

From stdpp Require Import base numbers list strings gmap.
From Stdlib Require Import DecimalString Sorting.Sorted.

Local Open Scope string_scope.
Local Open Scope Z_scope.

(** ** Host types ([vscode] API and [protocol.ts]) *)

(** [vscode.SymbolKind]: a numeric enum, values 0 to 25 in this order. *)
Inductive SymbolKind : Set :=
  | KindFile | KindModule | KindNamespace | KindPackage | KindClass
  | KindMethod | KindProperty | KindField | KindConstructor | KindEnum
  | KindInterface | KindFunction | KindVariable | KindConstant | KindString
  | KindNumber | KindBoolean | KindArray | KindObject | KindKey | KindNull
  | KindEnumMember | KindStruct | KindEvent | KindOperator
  | KindTypeParameter.

Global Instance SymbolKind_eq_dec : EqDecision SymbolKind.
Proof. solve_decision. Defined.

Definition SymbolKind_value (k : SymbolKind) : nat :=
  match k with
  | KindFile => 0 | KindModule => 1 | KindNamespace => 2 | KindPackage => 3
  | KindClass => 4 | KindMethod => 5 | KindProperty => 6 | KindField => 7
  | KindConstructor => 8 | KindEnum => 9 | KindInterface => 10
  | KindFunction => 11 | KindVariable => 12 | KindConstant => 13
  | KindString => 14 | KindNumber => 15 | KindBoolean => 16
  | KindArray => 17 | KindObject => 18 | KindKey => 19 | KindNull => 20
  | KindEnumMember => 21 | KindStruct => 22 | KindEvent => 23
  | KindOperator => 24 | KindTypeParameter => 25
  end%nat.

(** [kind.toString()]: the decimal rendering of the enum's number. *)
Definition kind_toString (k : SymbolKind) : string :=
  NilEmpty.string_of_uint (Nat.to_uint (SymbolKind_value k)).

Record Position : Set := { line : nat; character : nat }.
Record Range : Set := { range_start : Position; range_end : Position }.

Global Instance Position_eq_dec : EqDecision Position.
Proof. solve_decision. Defined.
Global Instance Range_eq_dec : EqDecision Range.
Proof. solve_decision. Defined.

(** [protocol.ts], [TypeHierarchyItem].  [data] is opaque to the client. *)
Record TypeHierarchyItem : Set := {
  name : string;
  kind : SymbolKind;
  tags : option (list nat);
  detail : option string;
  uri : string;
  range : Range;
  selectionRange : Range;
  data : option nat
}.

(** A [vscode.Uri] is an object: [Uri.parse] builds a new one on every
    call, and [===] on two of them compares the objects, not the text.
    An object was made either by the host (an editor's document uri) or
    by the n-th [Uri.parse] of this program. *)
Inductive UriObject : Set :=
  | HostUri (n : nat)
  | ParsedUri (n : nat).

Global Instance UriObject_eq_dec : EqDecision UriObject.
Proof. solve_decision. Defined.

Record Uri : Set := { uri_object : UriObject; uri_text : string }.

Definition Uri_strict_eq (a b : Uri) : bool :=
  bool_decide (uri_object a = uri_object b).

Definition Uri_toString (u : Uri) : string := uri_text u.

Record Location : Set := { loc_uri : Uri; loc_range : Range }.

Inductive TreeItemCollapsibleState : Set := None_ | Collapsed | Expanded.

Record TreeItem : Set := {
  label : string;
  description : option string;
  contextValue : string;
  iconPath : SymbolKind;
  command_name : string;
  command_title : string;
  command_uri : Uri;
  command_selection : Range;
  collapsibleState : TreeItemCollapsibleState
}.

(** ** The model's objects *)

Inductive TypeHierarchyView : Set := Supertype | Subtype | Class.

Global Instance TypeHierarchyView_eq_dec : EqDecision TypeHierarchyView.
Proof. solve_decision. Defined.

(** Address of a [TypeItem] object. *)
Abbreviation TypeItemRef := nat (only parsing).

(** [class TypeItem].  The [model] back-reference is constant (one model
    per store) and is left out. *)
Record TypeItem : Set := {
  item : TypeHierarchyItem;
  children : option (list TypeItemRef);
  parent : option TypeItemRef;
  expand : option bool
}.

Definition TypeItem_new (i : TypeHierarchyItem) (p : option TypeItemRef) : TypeItem :=
  {| item := i; children := None; parent := p; expand := None |}.

Definition with_children (c : option (list TypeItemRef)) (t : TypeItem) : TypeItem :=
  {| item := item t; children := c; parent := parent t; expand := expand t |}.
Definition with_parent (p : option TypeItemRef) (t : TypeItem) : TypeItem :=
  {| item := item t; children := children t; parent := p; expand := expand t |}.
Definition with_expand (e : option bool) (t : TypeItem) : TypeItem :=
  {| item := item t; children := children t; parent := parent t; expand := e |}.

(** Payload of the model's [_onDidChange] emitter as its listener sees
    it: the listener tests [e instanceof TypeItem]. *)
Inductive ChangePayload : Set :=
  | PayloadModel
  | PayloadItem (t : TypeItemRef).

(** The two commands the model sends to the host. *)
Inductive Command : Set := CmdSupertypes | CmdSubtypes.

(** What [await executeCommand(...)] gives: the promise is fulfilled with
    a list or with nothing, or it is rejected. *)
Inductive Reply : Set :=
  | Fulfilled (r : option (list TypeHierarchyItem))
  | Failed (reason : string).

(** The language service behind [executeCommand]; its answer may depend
    on how many commands were sent before. *)
Definition Service : Set := nat -> Command -> TypeHierarchyItem -> Reply.

(** [TypesModel] and [TypeItemDataProvider] with the store they share. *)
Record State : Set := {
  heap : list TypeItem;
  roots : list TypeItemRef;
  view : TypeHierarchyView;
  prefetch : bool;
  modelEvents : list ChangePayload;
  treeEvents : list (option TypeItemRef);
  calls : list (Command * TypeHierarchyItem);
  uris : nat
}.

Definition set_heap (h : list TypeItem) (s : State) : State :=
  {| heap := h; roots := roots s; view := view s; prefetch := prefetch s;
     modelEvents := modelEvents s; treeEvents := treeEvents s;
     calls := calls s; uris := uris s |}.
Definition set_roots (r : list TypeItemRef) (s : State) : State :=
  {| heap := heap s; roots := r; view := view s; prefetch := prefetch s;
     modelEvents := modelEvents s; treeEvents := treeEvents s;
     calls := calls s; uris := uris s |}.
Definition set_modelEvents (e : list ChangePayload) (s : State) : State :=
  {| heap := heap s; roots := roots s; view := view s; prefetch := prefetch s;
     modelEvents := e; treeEvents := treeEvents s;
     calls := calls s; uris := uris s |}.
Definition set_treeEvents (e : list (option TypeItemRef)) (s : State) : State :=
  {| heap := heap s; roots := roots s; view := view s; prefetch := prefetch s;
     modelEvents := modelEvents s; treeEvents := e;
     calls := calls s; uris := uris s |}.
Definition set_calls (c : list (Command * TypeHierarchyItem)) (s : State) : State :=
  {| heap := heap s; roots := roots s; view := view s; prefetch := prefetch s;
     modelEvents := modelEvents s; treeEvents := treeEvents s;
     calls := c; uris := uris s |}.
Definition set_uris (n : nat) (s : State) : State :=
  {| heap := heap s; roots := roots s; view := view s; prefetch := prefetch s;
     modelEvents := modelEvents s; treeEvents := treeEvents s;
     calls := calls s; uris := n |}.

(** Field assignment on the object at address [r]. *)
Definition update (r : TypeItemRef) (f : TypeItem -> TypeItem) (s : State) : State :=
  match heap s !! r with
  | Some t => set_heap (<[r := f t]> (heap s)) s
  | None => s
  end.

(** [new TypeItem(model, i, p)]: the next free address. *)
Definition alloc (i : TypeHierarchyItem) (p : option TypeItemRef) (s : State)
  : TypeItemRef * State :=
  (length (heap s), set_heap (heap s ++ [TypeItem_new i p]) s).

(** [vscode.Uri.parse(text)].  The new object keeps the text given; the
    host prints a parsed uri in a normalised form, which is not
    modelled, and no property below reads the text of a parsed uri
    back through [Uri_toString]. *)
Definition Uri_parse (text : string) (s : State) : Uri * State :=
  ({| uri_object := ParsedUri (uris s); uri_text := text |}, set_uris (S (uris s)) s).

(** The [Uri] objects that exist in a state: what a caller can pass. *)
Definition Uri_exists (s : State) (u : Uri) : Prop :=
  match uri_object u with
  | HostUri _ => True
  | ParsedUri n => (n < uris s)%nat
  end.

(** ** Arrays *)

Section Arrays.
Context {A : Type} `{EqDecision A}.

(** [array.includes(e)] *)
Definition includes (l : list A) (e : A) : bool := bool_decide (e ∈ l).

(** [array.indexOf(e)]: -1 when absent. *)
Fixpoint indexOf (l : list A) (e : A) : Z :=
  match l with
  | [] => -1
  | x :: l' =>
      if decide (x = e) then 0
      else let i := indexOf l' e in if i <? 0 then -1 else i + 1
  end.

(** [array[i]] for a number [i]: [undefined] outside the array. *)
Definition at_index (l : list A) (i : Z) : option A :=
  if i <? 0 then None else l !! Z.to_nat i.

(** Modelled from the spec: [tail] of [utils.ts], which is not among
    the sources; the spec has "previous" move to the last child. *)
Definition tail (l : list A) : option A :=
  at_index l (Z.of_nat (length l) - 1).

(** [array.splice(i, 1)] *)
Definition splice1 (l : list A) (i : nat) : list A := take i l ++ drop (S i) l.

(** Modelled from the spec: [del] of [utils.ts], which is not among
    the sources; the spec has it delete the node from the array in
    place, and an element that is not there leaves the array as it is. *)
Definition del (l : list A) (e : A) : list A :=
  let idx := indexOf l e in
  if 0 <=? idx then splice1 l (Z.to_nat idx) else l.
End Arrays.

(** [array.sort(cmp)]: the sort of the language is stable and looks only
    at the sign of what [cmp] returns.  Insertion from the right keeps an
    element in front of the later elements it does not exceed. *)
Section Sort.
Context {A : Type} (cmp : A -> A -> Z).

Fixpoint sort_insert (x : A) (l : list A) : list A :=
  match l with
  | [] => [x]
  | y :: l' => if cmp x y <=? 0 then x :: y :: l' else y :: sort_insert x l'
  end.

Definition Array_sort (l : list A) : list A := foldr sort_insert [] l.
End Sort.

(** ** Asynchronous methods *)

(** How a call ends: with a value, with a thrown error (a rejected
    promise), or not within the steps allowed to it. *)
Inductive Completion (A : Type) : Type :=
  | Returned (a : A)
  | Threw (reason : string)
  | Pending.
Arguments Returned {A} a.
Arguments Threw {A} reason.
Arguments Pending {A}.

Definition Async (A : Type) : Type := State -> Completion A * State.

Definition ret {A} (a : A) : Async A := fun s => (Returned a, s).

Definition bind {A B} (m : Async A) (k : A -> Async B) : Async B :=
  fun s =>
    match m s with
    | (Returned a, s') => k a s'
    | (Threw why, s') => (Threw why, s')
    | (Pending, s') => (Pending, s')
    end.

Notation "'let*' x ':=' m 'in' k" := (bind m (fun x => k))
  (at level 10, x name, m at level 100, k at level 200).
Notation "m ';;' k" := (bind m (fun _ => k))
  (at level 100, k at level 200, right associativity).

Definition get : Async State := fun s => (Returned s, s).
Definition modify (f : State -> State) : Async unit := fun s => (Returned tt, f s).
Definition lift {A} (f : State -> A * State) : Async A :=
  fun s => let '(a, s') := f s in (Returned a, s').

(** Reading through a reference.  A reference of the program always
    denotes an object; an address outside the store ends the call. *)
Definition deref (r : TypeItemRef) : Async TypeItem :=
  fun s =>
    match heap s !! r with
    | Some t => (Returned t, s)
    | None => (Threw "no such object", s)
    end.

(** The provider's listener on the model's change event:
    [e => this._emitter.fire(e instanceof TypeItem ? e : undefined)]. *)
Definition modelListener (e : ChangePayload) : option TypeItemRef :=
  match e with
  | PayloadItem t => Some t
  | PayloadModel => None
  end.

(** [this._emitter.fire(e)] of the provider. *)
Definition emitter_fire (e : option TypeItemRef) : Async unit :=
  modify (fun s => set_treeEvents (treeEvents s ++ [e]) s).

(** [this._onDidChange.fire(e)] of the model: the event is delivered to
    the provider's listener at once. *)
Definition onDidChange_fire (e : ChangePayload) : Async unit :=
  modify (fun s => set_modelEvents (modelEvents s ++ [e]) s) ;;
  emitter_fire (modelListener e).

Section Model.
(** [String.prototype.localeCompare] of the host, and the service
    that answers the type hierarchy commands. *)
Variable localeCompare : string -> string -> Z.
Variable svc : Service.

(** [await vscode.commands.executeCommand(c, i, token)]; the model
    never cancels its token. *)
Definition executeCommand (c : Command) (i : TypeHierarchyItem)
  : Async (option (list TypeHierarchyItem)) :=
  fun s =>
    let s' := set_calls (calls s ++ [(c, i)]) s in
    match svc (length (calls s)) c i with
    | Fulfilled r => (Returned r, s')
    | Failed why => (Threw why, s')
    end.

(** The comparator given to [sort] in [_resolveTypes]. *)
Definition compareTypes (a b : TypeHierarchyItem) : Z :=
  if decide (kind_toString (kind a) = kind_toString (kind b))
  then localeCompare (name a) (name b)
  else localeCompare (kind_toString (kind b)) (kind_toString (kind a)).

(** [types.map(item => new TypeItem(this, item, type))] *)
Fixpoint new_items (types : list TypeHierarchyItem) (p : option TypeItemRef)
  : Async (list TypeItemRef) :=
  match types with
  | [] => ret []
  | i :: rest =>
      let* r := lift (alloc i p) in
      let* rs := new_items rest p in
      ret (r :: rs)
  end.

Definition _resolveTypes (type : TypeItemRef) : Async (list TypeItemRef) :=
  let* t := deref type in
  let* s := get in
  let* types :=
    (if decide (view s = Supertype)
     then executeCommand CmdSupertypes (item t)
     else executeCommand CmdSubtypes (item t)) in
  match types with
  | None => ret []
  | Some types => new_items (Array_sort compareTypes types) (Some type)
  end.

Definition getTypeChildren (type : TypeItemRef) : Async (list TypeItemRef) :=
  let* t := deref type in
  match children t with
  | Some c => ret c
  | None =>
      let* c := _resolveTypes type in
      modify (update type (with_children (Some c))) ;;
      ret c
  end.

(** *** Navigation *)

Definition location (it : TypeItemRef) : Async Location :=
  let* t := deref it in
  let* u := lift (Uri_parse (uri (item t))) in
  ret {| loc_uri := u; loc_range := range (item t) |}.

Definition item_uri (s : State) (r : TypeItemRef) : option string :=
  uri ∘ item <$> heap s !! r.

Definition nearest (s : State) (u : Uri) : option TypeItemRef :=
  match List.find (fun r => bool_decide (item_uri s r = Some (Uri_toString u))) (roots s) with
  | Some r => Some r
  | None => roots s !! 0%nat
  end.

(** [item.parent?.children] *)
Definition parent_children (s : State) (t : TypeItem) : option (list TypeItemRef) :=
  p ← parent t; pt ← heap s !! p; children pt.

Definition _move (s : State) (it : TypeItemRef) (fwd : bool) : option TypeItemRef :=
  match heap s !! it with
  | None => None
  | Some t =>
      match children t with
      | Some (c :: cs) => if fwd then at_index (c :: cs) 0 else tail (c :: cs)
      | _ =>
          let array := if includes (roots s) it then Some (roots s)
                       else parent_children s t in
          match array with
          | Some (a :: as_) =>
              let array := a :: as_ in
              let idx := indexOf array it in
              let delta := if fwd then 1 else -1 in
              at_index array
                (idx + delta + Z.rem (Z.of_nat (length array)) (Z.of_nat (length array)))
          | _ => None
          end
      end
  end.

Definition next (s : State) (from : TypeItemRef) : TypeItemRef :=
  default from (_move s from true).

Definition previous (s : State) (from : TypeItemRef) : TypeItemRef :=
  default from (_move s from false).

Definition getEditorHighlights (it : TypeItemRef) (u : Uri) : Async (list Range) :=
  let* t := deref it in
  let* parsed := lift (Uri_parse (uri (item t))) in
  ret (if Uri_strict_eq parsed u then [selectionRange (item t)] else []).

Definition remove (it : TypeItemRef) : Async unit :=
  let* t := deref it in
  let* s := get in
  if includes (roots s) it then
    modify (fun s => set_roots (del (roots s) it) s) ;;
    onDidChange_fire PayloadModel
  else
    match parent t with
    | None => ret tt
    | Some p =>
        let* pt := deref p in
        match children pt with
        | None => ret tt
        | Some siblings =>
            modify (update p (with_children (Some (del siblings it)))) ;;
            onDidChange_fire PayloadModel
        end
    end.

(** [TypeItem.remove] *)
Definition TypeItem_remove (it : TypeItemRef) : Async unit := remove it.

(** *** The tree data provider *)

Fixpoint getClassViewRoot (fuel : nat) (rootClass : TypeItemRef) : Async TypeItemRef :=
  match fuel with
  | O => fun s => (Pending, s)
  | S fuel' =>
      modify (update rootClass (with_expand (Some true))) ;;
      let* t := deref rootClass in
      let* supertypes := executeCommand CmdSupertypes (item t) in
      match supertypes with
      | None | Some [] => ret rootClass
      | Some supertypes =>
          match List.find (fun i => bool_decide (kind i = KindClass)) supertypes with
          | Some supertype =>
              let* parentItem := lift (alloc supertype None) in
              modify (update rootClass (with_parent (Some parentItem))) ;;
              modify (update parentItem (with_children (Some [rootClass]))) ;;
              getClassViewRoot fuel' parentItem
          | None => ret rootClass
          end
      end
  end.

Definition item_kind (s : State) (r : TypeItemRef) : option SymbolKind :=
  kind ∘ item <$> heap s !! r.

Definition getChildren (fuel : nat) (element : option TypeItemRef)
  : Async (list TypeItemRef) :=
  let* s := get in
  match element with
  | None =>
      if decide (view s = Class) then
        match List.find (fun r => bool_decide (item_kind s r = Some KindClass)) (roots s) with
        | Some root =>
            let* top := getClassViewRoot fuel root in
            ret [top]
        | None => ret []
        end
      else ret (roots s)
  | Some e =>
      let* children := getTypeChildren e in
      (if bool_decide (length children = 0%nat)
       then emitter_fire (Some e) else ret tt) ;;
      ret children
  end.

Definition getTreeItem (fuel : nat) (element : TypeItemRef) : Async TreeItem :=
  let* t := deref element in
  let* u := lift (Uri_parse (uri (item t))) in
  let selection :=
    {| range_start := range_start (selectionRange (item t));
       range_end := range_start (selectionRange (item t)) |} in
  let built state :=
    {| label := name (item t);
       description := detail (item t);
       contextValue := "type-item";
       iconPath := kind (item t);
       command_name := "vscode.open";
       command_title := "Open Type";
       command_uri := u;
       command_selection := selection;
       collapsibleState := state |} in
  let* s := get in
  if (bool_decide (view s = Class) && bool_decide (expand t = Some true))
     || includes (roots s) element
  then ret (built Expanded)
  else if bool_decide (children t = Some [])
  then ret (built None_)
  else if negb (prefetch s)
  then ret (built Collapsed)
  else
    let* c := getChildren fuel (Some element) in
    modify (update element (with_children (Some c))) ;;
    ret (built (if bool_decide (length c = 0%nat) then None_ else Collapsed)).

Definition getParent (s : State) (element : TypeItemRef) : option TypeItemRef :=
  t ← heap s !! element; parent t.
End Model.

(** [new TypesModel(view, items)] followed by
    [new TypeItemDataProvider(model)], as in [TypesTreeInput.resolve];
    [prefetch] is the configuration value the provider reads. *)
Definition TypesModel_new (v : TypeHierarchyView) (pre : bool)
    (items : list TypeHierarchyItem) : State :=
  {| heap := (fun i => TypeItem_new i None) <$> items;
     roots := seq 0 (length items);
     view := v;
     prefetch := pre;
     modelEvents := [];
     treeEvents := [];
     calls := [];
     uris := 0 |}.

(** ** What the tree view and the commands can ask of a session *)

Inductive Op : Set :=
  | OpGetChildren (fuel : nat) (element : option TypeItemRef)
  | OpGetTreeItem (fuel : nat) (element : TypeItemRef)
  | OpGetTypeChildren (type : TypeItemRef)
  | OpRemove (it : TypeItemRef)
  | OpGetEditorHighlights (it : TypeItemRef) (u : Uri)
  | OpLocation (it : TypeItemRef).

Section Session.
Variable localeCompare : string -> string -> Z.
Variable svc : Service.

Definition run_op (o : Op) (s : State) : State :=
  match o with
  | OpGetChildren fuel element => (getChildren localeCompare svc fuel element s).2
  | OpGetTreeItem fuel element => (getTreeItem localeCompare svc fuel element s).2
  | OpGetTypeChildren type => (getTypeChildren localeCompare svc type s).2
  | OpRemove it => (remove it s).2
  | OpGetEditorHighlights it u => (getEditorHighlights it u s).2
  | OpLocation it => (location it s).2
  end.

Definition run (ops : list Op) (s : State) : State :=
  foldl (fun s o => run_op o s) s ops.
End Session.

(** The one operation that climbs the class chain: the top-level
    [getChildren()] of the provider. *)
Definition is_materialization (o : Op) : bool :=
  match o with
  | OpGetChildren _ None => true
  | _ => false
  end.

Definition parent_of (s : State) (r : TypeItemRef) : option (option TypeItemRef) :=
  parent <$> heap s !! r.
Definition children_of (s : State) (r : TypeItemRef) : option (option (list TypeItemRef)) :=
  children <$> heap s !! r.
Definition expand_of (s : State) (r : TypeItemRef) : option (option bool) :=
  expand <$> heap s !! r.
Definition item_of (s : State) (r : TypeItemRef) : option TypeHierarchyItem :=
  item <$> heap s !! r.

(** Every node of the root sequence has [parent = undefined]. *)
Definition roots_parent_undefined (s : State) : Prop :=
  ∀ r, r ∈ roots s → parent_of s r = Some None.

(** The root the top-level [getChildren()] climbs from: the first root
    that is a class. *)
Definition first_class_root (s : State) : option TypeItemRef :=
  List.find (fun r => bool_decide (item_kind s r = Some KindClass)) (roots s).

(** The command [_resolveTypes] sends in a given view. *)
Definition view_command (v : TypeHierarchyView) : Command :=
  if decide (v = Supertype) then CmdSupertypes else CmdSubtypes.

(** The sibling array [_move] and [remove] look for. *)
Definition sibling_array (s : State) (it : TypeItemRef) : option (list TypeItemRef) :=
  t ← heap s !! it;
  if includes (roots s) it then Some (roots s) else parent_children s t.

(** Lexicographic order on strings, by character code. *)
Definition lex_lt (a b : string) : Prop := String.compare a b = Lt.

(** Two items the comparator of [_resolveTypes] cannot tell apart. *)
Definition same_key (localeCompare : string -> string -> Z)
    (a b : TypeHierarchyItem) : bool :=
  bool_decide (kind a = kind b) && (localeCompare (name a) (name b) =? 0).

(** What [sort] may assume of [localeCompare]: it is a comparison (the
    sign flips with the arguments, "not after" is transitive), and on
    the decimal digits of the kinds it is the order by character code. *)
Record collation (localeCompare : string -> string -> Z) : Prop := {
  collation_flip : ∀ a b, Z.sgn (localeCompare b a) = - Z.sgn (localeCompare a b);
  collation_trans : ∀ a b c,
    localeCompare a b <= 0 → localeCompare b c <= 0 → localeCompare a c <= 0;
  collation_kinds : ∀ k1 k2 : SymbolKind,
    localeCompare (kind_toString k1) (kind_toString k2) < 0
    ↔ lex_lt (kind_toString k1) (kind_toString k2)
}.

(** ** Sample data *)

Definition at_line (l : nat) : Range :=
  {| range_start := {| line := l; character := 0 |};
     range_end := {| line := l; character := 10 |} |}.

Definition sample (n : string) (k : SymbolKind) (u : string) (l : nat)
  : TypeHierarchyItem :=
  {| name := n; kind := k; tags := None; detail := None; uri := u;
     range := at_line l; selectionRange := at_line l; data := None |}.

Definition R0 := sample "R0" KindClass "file:///r0.ts" 1.
Definition R1 := sample "R1" KindClass "file:///r1.ts" 2.
Definition R2 := sample "R2" KindClass "file:///r2.ts" 3.
Definition X := sample "X" KindClass "file:///x.java" 4.
Definition InterfaceI := sample "InterfaceI" KindInterface "file:///i.java" 5.
Definition ClassY := sample "ClassY" KindClass "file:///y.java" 6.

(** Comparison by character code, a collation. *)
Definition codeCompare (a b : string) : Z :=
  match String.compare a b with Lt => -1 | Eq => 0 | Gt => 1 end.

(** A service that reports nothing. *)
Definition silent : Service := fun _ _ _ => Fulfilled None.

(** A service whose every command fails. *)
Definition failing : Service := fun _ _ _ => Failed "command failed".

(** X has the supertypes InterfaceI and ClassY, in this order; nothing
    else has supertypes. *)
Definition java : Service := fun _ c i =>
  match c with
  | CmdSupertypes =>
      if bool_decide (name i = "X") then Fulfilled (Some [InterfaceI; ClassY])
      else Fulfilled (Some [])
  | CmdSubtypes => Fulfilled None
  end.

(** R0 has the single subtype R1. *)
Definition one_child : Service := fun _ _ i =>
  if bool_decide (name i = "R0") then Fulfilled (Some [R1]) else Fulfilled None.

Definition three_roots : State := TypesModel_new Supertype false [R0; R1; R2].

(** ** Notions the properties are stated with *)

(** The reply to the command a resolution sends from state [s]. *)
Definition reply_for (svc : Service) (s : State) (t : TypeItem) : Reply :=
  svc (length (calls s)) (view_command (view s)) (item t).

(** The state once that command is sent. *)
Definition sent (s : State) (t : TypeItem) : State :=
  set_calls (calls s ++ [(view_command (view s), item t)]) s.

(** [supertype.kind === vscode.SymbolKind.Class] *)
Definition is_class (i : TypeHierarchyItem) : bool := bool_decide (kind i = KindClass).

(** The state after [rootClass.expand = true] and the supertypes
    command. *)
Definition asked (s : State) (r : TypeItemRef) (t : TypeItem) : State :=
  set_calls (calls s ++ [(CmdSupertypes, item t)])
    (set_heap (<[r := with_expand (Some true) t]> (heap s)) s).

(** The state after the new parent node is linked above [r]. *)
Definition linked (s : State) (r : TypeItemRef) (t : TypeItem)
    (y : TypeHierarchyItem) : State :=
  set_heap
    (<[r := with_parent (Some (length (heap s))) (with_expand (Some true) t)]> (heap s)
       ++ [with_children (Some [r]) (TypeItem_new y None)])
    (asked s r t).

(** The session of the class view that starts at the class X. *)
Definition class_session : State := TypesModel_new Class false [X].

(** R1, the child of the root R0, before and after it was itself
    resolved, to nothing. *)
Definition child_unresolved : State :=
  (getTypeChildren codeCompare one_child 0%nat (TypesModel_new Subtype false [R0])).2.

Definition child_resolved_empty : State :=
  (getTypeChildren codeCompare one_child 1%nat child_unresolved).2.

(** The child R1 of the root R0, when it has been removed once. *)
Definition removed_once : State :=
  let s1 := (getTypeChildren codeCompare one_child 0%nat
               (TypesModel_new Subtype false [R0])).2 in
  (remove 1%nat s1).2.

(** A service that gives two classes with an interface between them. *)
Definition mixed : Service := fun _ _ _ => Fulfilled (Some [R1; InterfaceI; R0]).

(** [m] takes every state to a state related to it by [R], however it
    ends. *)
Definition preserves {A} (R : relation State) (m : Async A) : Prop :=
  ∀ s, R s (m s).2.

(** A relation between the state before and the state after that the
    plain effects of the program respect: building a [Uri], sending a
    command, firing the provider's emitter, making new objects, and
    assigning [children]. *)
Class Frame (R : relation State) : Prop := {
  frame_preorder :: PreOrder R;
  frame_uris : ∀ s n, R s (set_uris n s);
  frame_calls : ∀ s c, R s (set_calls c s);
  frame_treeEvents : ∀ s e, R s (set_treeEvents e s);
  frame_alloc : ∀ s fresh, R s (set_heap (heap s ++ fresh) s);
  frame_children : ∀ s r c, R s (update r (with_children c) s)
}.

(** No change event of the model is fired. *)
Definition quiet : relation State := fun s s' => modelEvents s' = modelEvents s.

(** The view is the same, no node joins the root sequence, and every
    object stays, with its item; its parent stays too if its address is
    at least [k]. *)
Definition keeps_from (k : nat) : relation State := fun s s' =>
  view s' = view s ∧
  (∀ x, x ∈ roots s' → x ∈ roots s) ∧
  ∀ n t, heap s !! n = Some t →
    ∃ t', heap s' !! n = Some t' ∧ item t' = item t ∧
          ((k <= n)%nat → parent t' = parent t).

(** [a] is not after [b]. *)
Definition not_after {A} (cmp : A -> A -> Z) (a b : A) : Prop := cmp a b <= 0.

(** ** [TypesTreeInput] *)

(** [class TypesTreeInput].  The input holds the one context object of
    the extension, which the commands mutate: [resolve] reads its view
    when it runs, so the context is an argument of [resolve] and not a
    copy in the record.  [title] is computed once, by the constructor. *)
Record TypesTreeInput : Set := {
  title : string;
  input_contextValue : string;
  input_location : Location;
  input_items : list TypeHierarchyItem
}.

Definition TypesTreeInput_title (v : TypeHierarchyView) : string :=
  if decide (v = Supertype) then "Supertype Hierarchy"
  else if decide (v = Subtype) then "Subtype Hierarchy"
  else if decide (v = Class) then "Class Hierarchy"
  else "Invalid Type Hierarchy View".

Definition TypesTreeInput_new (loc : Location) (v : TypeHierarchyView)
    (items : list TypeHierarchyItem) : TypesTreeInput :=
  {| title := TypesTreeInput_title v;
     input_contextValue := "typeHierarchy";
     input_location := loc;
     input_items := items |}.

(** [resolve()]: the model and its provider, or nothing when there is
    no root.  [v] is the view of the context at this moment and [pre]
    the prefetch setting the provider reads. *)
Definition TypesTreeInput_resolve (v : TypeHierarchyView) (pre : bool)
    (input : TypesTreeInput) : option State :=
  let model := TypesModel_new v pre (input_items input) in
  if bool_decide (length (roots model) = 0%nat) then None else Some model.

(** The [message] getter of what [resolve] returns; it reads the live
    model. *)
Definition message (s : State) : option string :=
  if bool_decide (length (roots s) = 0%nat) then Some "No results." else None.

(** [with(location)] *)
Definition TypesTreeInput_with (input : TypesTreeInput) (v : TypeHierarchyView)
    (loc : Location) : TypesTreeInput :=
  TypesTreeInput_new loc v (input_items input).

(** ** [index.ts]: the context and the commands *)

(** A value kept in the workspace memento. *)
Inductive MementoValue : Set :=
  | StoredView (v : TypeHierarchyView)
  | StoredBool (b : bool).

Definition _viewKey : string := "references-view.typeHierarchyView".
Definition _modeKey : string := "references-view.classViewSupport".

(** [class TypeHierarchyContext].
    Modelled from the spec: [ContextKey] of [utils.ts], which is not
    among the sources, is a flag of the host that holds the value last
    set; [_ctxView] and [_ctxMode] are these values, unset at first. *)
Record TypeHierarchyContext : Type := {
  _mem : gmap string MementoValue;
  _view : TypeHierarchyView;
  _classViewSupport : bool;
  _ctxView : option string;
  _ctxMode : option bool
}.

(** [set view(value)] *)
Definition set_view (value : TypeHierarchyView) (c : TypeHierarchyContext)
  : TypeHierarchyContext :=
  {| _mem := <[_viewKey := StoredView value]> (_mem c);
     _view := value;
     _classViewSupport := _classViewSupport c;
     _ctxView := Some (if decide (value = Supertype) then "supertype"
                       else if decide (value = Subtype) then "subtype"
                       else "class");
     _ctxMode := _ctxMode c |}.

(** [set classViewSupport(classViewSupport)] *)
Definition set_classViewSupport (b : bool) (c : TypeHierarchyContext)
  : TypeHierarchyContext :=
  {| _mem := <[_modeKey := StoredBool b]> (_mem c);
     _view := _view c;
     _classViewSupport := b;
     _ctxView := _ctxView c;
     _ctxMode := Some b |}.

(** [new TypeHierarchyContext(mem, view, classViewSupport)] *)
Definition TypeHierarchyContext_new (mem : gmap string MementoValue)
    (v : TypeHierarchyView) (support : bool) : TypeHierarchyContext :=
  set_classViewSupport support
    (set_view v
       {| _mem := mem; _view := v; _classViewSupport := support;
          _ctxView := None; _ctxMode := None |}).

(** The active text editor, as far as the commands look at it. *)
Record Editor : Set := {
  languageId : string;
  document_uri : Uri;
  selection_active : Position
}.

(** [new vscode.Location(uri, position)] *)
Definition Location_at (u : Uri) (p : Position) : Location :=
  {| loc_uri := u; loc_range := {| range_start := p; range_end := p |} |}.

(** The two ways the commands call ['typeHierarchy.prepare']. *)
Inductive PrepareArgs : Set :=
  | PrepareLocation (loc : Location)
  | PrepareUriPosition (u : Uri) (p : Position).

(** What [tree.getInput()] gives back when it gives something. *)
Inductive TreeInput : Set :=
  | InputTypes (i : TypesTreeInput)
  | InputOther.

(** What [register] closes over: the context, the inputs handed to
    [tree.setInput] so far, and how many [Uri]s the commands have
    parsed (no operation of the model is given one of these). *)
Record Extension : Type := {
  typeHierarchyContext : TypeHierarchyContext;
  shown : list TypesTreeInput;
  parsed : nat
}.

Definition classViewLanguages : list string := ["java"].

Definition is_interface (i : TypeHierarchyItem) : bool :=
  bool_decide (kind i = KindInterface).

(** The loop that clears [classViewEnabled] at an interface. *)
Definition clear_at_interface (enabled : bool) (items : list TypeHierarchyItem) : bool :=
  foldl (fun enabled i => if is_interface i then false else enabled) enabled items.

(** [isClassViewSupported()]; [active] is what
    [vscode.window.activeTextEditor] holds when the function runs. *)
Definition isClassViewSupported (active : option Editor) (c : TypeHierarchyContext)
  : bool * TypeHierarchyContext :=
  match languageId <$> active with
  | Some lang =>
      if bool_decide (lang ≠ "") && includes classViewLanguages lang
      then (true, set_classViewSupport true c)
      else (false, set_classViewSupport false c)
  | None => (false, set_classViewSupport false c)
  end.

Section Commands.
(** [vscode.window.activeTextEditor] when a command starts and when it
    is read again after the [await] of ['typeHierarchy.prepare']: while
    the command waits the editor can change or be closed. *)
Variable activeTextEditor : option Editor.
Variable activeTextEditorAfter : option Editor.
Variable prepare : PrepareArgs -> Reply.

Definition showTypeHierarchy (e : Extension) : Completion unit * Extension :=
  match activeTextEditor with
  | None => (Returned tt, e)
  | Some editor =>
      let loc := Location_at (document_uri editor) (selection_active editor) in
      match prepare (PrepareLocation loc) with
      | Failed why => (Threw why, e)
      | Fulfilled None | Fulfilled (Some []) => (Returned tt, e)
      | Fulfilled (Some items) =>
          let '(enabled, c) :=
            isClassViewSupported activeTextEditorAfter (typeHierarchyContext e) in
          let classViewEnabled := clear_at_interface enabled items in
          let c :=
            if classViewEnabled
            then set_classViewSupport true (set_view Class c)
            else set_classViewSupport false c in
          (Returned tt,
           {| typeHierarchyContext := c;
              shown := shown e ++ [TypesTreeInput_new loc (_view c) items];
              parsed := parsed e |})
      end
  end.

Definition setTypesView (v : TypeHierarchyView) (anchor : option TypeItem)
    (oldInput : option TreeInput) (e : Extension) : Completion unit * Extension :=
  let c := set_view v (typeHierarchyContext e) in
  match anchor with
  | Some a =>
      let u := {| uri_object := ParsedUri (parsed e); uri_text := uri (item a) |} in
      let loc := Location_at u (range_start (selectionRange (item a))) in
      let e1 := {| typeHierarchyContext := c; shown := shown e;
                   parsed := S (parsed e) |} in
      match prepare (PrepareUriPosition (loc_uri loc) (range_start (loc_range loc))) with
      | Failed why => (Threw why, e1)
      | Fulfilled None => (Returned tt, e1)
      | Fulfilled (Some items) =>
          let classViewEnabled := clear_at_interface true items in
          let c := set_classViewSupport classViewEnabled c in
          (Returned tt,
           {| typeHierarchyContext := c;
              shown := shown e ++ [TypesTreeInput_new loc (_view c) items];
              parsed := S (parsed e) |})
      end
  | None =>
      match oldInput with
      | Some (InputTypes old) =>
          (Returned tt,
           {| typeHierarchyContext := c;
              shown := shown e ++
                [TypesTreeInput_new (input_location old) (_view c) (input_items old)];
              parsed := parsed e |})
      | _ =>
          (Returned tt,
           {| typeHierarchyContext := c; shown := shown e; parsed := parsed e |})
      end
  end.

(** The commands [register] registers. *)
Inductive ExtensionCommand : Type :=
  | ShowTypeHierarchy
  | ShowSupertypes (anchor : option TypeItem) (oldInput : option TreeInput)
  | ShowSubtypes (anchor : option TypeItem) (oldInput : option TreeInput)
  | ShowClassView (anchor : option TypeItem) (oldInput : option TreeInput)
  | BasedOnType (anchor : option TypeItem) (oldInput : option TreeInput).

Definition run_command (cmd : ExtensionCommand) (e : Extension) : Extension :=
  match cmd with
  | ShowTypeHierarchy => (showTypeHierarchy e).2
  | ShowSupertypes a old => (setTypesView Supertype a old e).2
  | ShowSubtypes a old => (setTypesView Subtype a old e).2
  | ShowClassView a old => (setTypesView Class a old e).2
  | BasedOnType a old =>
      (setTypesView (_view (typeHierarchyContext e)) a old e).2
  end.
End Commands.

(** [register]: the context starts in the supertype view, without class
    view support. *)
Definition register (workspaceState : gmap string MementoValue) : Extension :=
  {| typeHierarchyContext := TypeHierarchyContext_new workspaceState Supertype false;
     shown := [];
     parsed := 0 |}.

(** [removeTypeItem(item)]: [item.remove()] when the argument is a
    [TypeItem], nothing else. *)
Definition removeTypeItem (arg : option TypeItemRef) : Async unit :=
  match arg with
  | Some it => TypeItem_remove it
  | None => ret tt
  end.

(** A command with the editor that is active when it starts, the one
    active when the service has answered, and the answers
    ['typeHierarchy.prepare'] gives when it runs. *)
Definition Invocation : Type :=
  option Editor * option Editor * (PrepareArgs -> Reply) * ExtensionCommand.

Definition run_commands (l : list Invocation) (e : Extension) : Extension :=
  foldl (fun e '(editor, later, prepare, cmd) =>
           run_command editor later prepare cmd e) e l.

(** No item is an interface. *)
Definition no_interface (items : list TypeHierarchyItem) : bool :=
  forallb (fun i => negb (is_interface i)) items.

(** An editor on a Java file, one on a TypeScript file. *)
Definition java_editor : Editor :=
  {| languageId := "java";
     document_uri := {| uri_object := HostUri 0; uri_text := "file:///x.java" |};
     selection_active := {| line := 4; character := 2 |} |}.

Definition ts_editor : Editor :=
  {| languageId := "typescript";
     document_uri := {| uri_object := HostUri 1; uri_text := "file:///r0.ts" |};
     selection_active := {| line := 1; character := 0 |} |}.

(** ['typeHierarchy.prepare'] answering with one fixed list. *)
Definition prepares (items : list TypeHierarchyItem) : PrepareArgs -> Reply :=
  fun _ => Fulfilled (Some items).

(** The context keys and the memento say what the context holds. *)
Definition mirrored (c : TypeHierarchyContext) : Prop :=
  _ctxView c = Some (if decide (_view c = Supertype) then "supertype"
                     else if decide (_view c = Subtype) then "subtype"
                     else "class") ∧
  _mem c !! _viewKey = Some (StoredView (_view c)) ∧
  _ctxMode c = Some (_classViewSupport c) ∧
  _mem c !! _modeKey = Some (StoredBool (_classViewSupport c)).

(** R0 resolved to three children, the first of which was removed. *)
Definition stale_child : State :=
  let s1 := (getTypeChildren codeCompare mixed 0%nat
               (TypesModel_new Subtype false [R0])).2 in
  (remove 1%nat s1).2.

(** The tree item [getTreeItem] builds for a node, given the [Uri] it
    parsed and the state it decided on. *)
Definition TreeItem_of (t : TypeItem) (u : Uri) (state : TreeItemCollapsibleState)
  : TreeItem :=
  {| label := name (item t);
     description := detail (item t);
     contextValue := "type-item";
     iconPath := kind (item t);
     command_name := "vscode.open";
     command_title := "Open Type";
     command_uri := u;
     command_selection :=
       {| range_start := range_start (selectionRange (item t));
          range_end := range_start (selectionRange (item t)) |};
     collapsibleState := state |}.

(** The [Uri] the next [Uri.parse] of the model makes for a node. *)
Definition next_uri (s : State) (t : TypeItem) : Uri :=
  {| uri_object := ParsedUri (uris s); uri_text := uri (item t) |}.

(** R0 resolved to its child R1, in a session with prefetch on. *)
Definition prefetching : State :=
  (getTypeChildren codeCompare one_child 0%nat (TypesModel_new Subtype true [R0])).2.

(** The children array of a node, if it has one, holds no node twice. *)
Definition tidy (t : TypeItem) : Prop := ∀ cs, children t = Some cs → NoDup cs.

(** The commands a call adds to those sent before it. *)
Definition sends (P : Command -> Prop) (s s' : State) : Prop :=
  view s' = view s ∧
  ∃ extra, calls s' = (calls s ++ extra)%list ∧ Forall (fun c => P c.1) extra.

(** No array of the model holds a node twice. *)
Definition no_repeats (s : State) : Prop :=
  NoDup (roots s) ∧
  ∀ n t cs, heap s !! n = Some t → children t = Some cs → NoDup cs.

(** [r] has no resolved child. *)
Definition childless (s : State) (r : TypeItemRef) : Prop :=
  children_of s r = Some None ∨ children_of s r = Some (Some []).

(** * Properties *)

(** ** Navigation *)

Lemma indexOf_bounds {A} `{EqDecision A} (l : list A) (e : A) :
  -1 <= indexOf l e < Z.of_nat (length l).
Proof.
  induction l as [|x l IH]; simpl; [lia|].
  destruct (decide (x = e)); [lia|].
  destruct (indexOf l e <? 0) eqn:E; lia.
Qed.

Lemma indexOf_lookup {A} `{EqDecision A} (l : list A) (e : A) :
  0 <= indexOf l e → l !! Z.to_nat (indexOf l e) = Some e.
Proof.
  induction l as [|x l IH]; simpl; [lia|].
  destruct (decide (x = e)) as [->|]; [done|].
  destruct (indexOf l e <? 0) eqn:E; [lia|].
  intros _. apply Z.ltb_ge in E.
  replace (Z.to_nat (indexOf l e + 1)) with (S (Z.to_nat (indexOf l e))) by lia.
  simpl. auto.
Qed.

Lemma indexOf_absent {A} `{EqDecision A} (l : list A) (e : A) :
  indexOf l e < 0 ↔ e ∉ l.
Proof.
  induction l as [|x l IH]; simpl.
  - split; [intros _; apply not_elem_of_nil | lia].
  - destruct (decide (x = e)) as [->|Hne].
    + split; [lia | intros H; exfalso; apply H; left].
    + rewrite not_elem_of_cons.
      pose proof (indexOf_bounds l e).
      destruct (indexOf l e <? 0) eqn:E.
      * apply Z.ltb_lt in E. split; [intros _; split; [congruence | tauto] | lia].
      * apply Z.ltb_ge in E. split; [lia | intros [_ H']; apply IH in H'; lia].
Qed.

(** What [_move] computes on a node without resolved children: the
    remainder in the index is taken of [array.length] by itself, so the
    index is [idx + delta] and nothing wraps. *)
Lemma _move_sibling (s : State) (it : TypeItemRef) (t : TypeItem)
    (arr : list TypeItemRef) (fwd : bool) :
  heap s !! it = Some t →
  children t = None ∨ children t = Some [] →
  sibling_array s it = Some arr →
  arr ≠ [] →
  _move s it fwd = at_index arr (indexOf arr it + (if fwd then 1 else -1)).
Proof.
  intros Ht Hc Harr Hne. unfold _move, sibling_array in *. rewrite Ht in *. simpl in Harr.
  assert (Hrem : ∀ n : nat, (0 < n)%nat → Z.rem (Z.of_nat n) (Z.of_nat n) = 0).
  { intros n Hn. apply Z.rem_same. lia. }
  destruct Hc as [-> | ->]; rewrite Harr; destruct arr as [|a arr']; try done;
    rewrite Hrem by (simpl; lia); by rewrite Z.add_0_r.
Qed.

(** C1 (what the code does): with roots [R0, R1, R2] and nothing
    resolved, [next] from the last root and [previous] from the first
    root stay where they are; inside the array both move by one. *)
Theorem next_previous_do_not_wrap :
  (roots three_roots = [0; 1; 2] ∧
   next three_roots 2 = 2 ∧ previous three_roots 0 = 0 ∧
   next three_roots 2 ≠ 0 ∧ previous three_roots 0 ≠ 2 ∧
   next three_roots 0 = 1 ∧ next three_roots 1 = 2 ∧
   previous three_roots 2 = 1 ∧ previous three_roots 1 = 0)%nat.
Proof. repeat split; try reflexivity; vm_compute; discriminate. Qed.

(** ** Editor highlights *)

Ltac step_async :=
  unfold bind, ret, get, modify, lift, deref, emitter_fire, onDidChange_fire; simpl.

(** C4 (what the code does): [getEditorHighlights] compares the object
    that [Uri.parse] has just made with the object it was given, so for
    every node and every uri that exists, equal in text or not, it
    returns the empty sequence. *)
Theorem getEditorHighlights_empty (s : State) (it : TypeItemRef) (t : TypeItem) (u : Uri) :
  heap s !! it = Some t →
  Uri_exists s u →
  getEditorHighlights it u s = (Returned [], set_uris (S (uris s)) s).
Proof.
  intros Ht Hu. unfold getEditorHighlights. step_async. rewrite Ht. simpl.
  unfold Uri_strict_eq. simpl. rewrite bool_decide_eq_false_2; [done|].
  unfold Uri_exists in Hu. destruct (uri_object u); [discriminate|].
  intros [= Heq]. lia.
Qed.

(** The uri of the editor that shows R0, and the same text parsed anew. *)
Lemma getEditorHighlights_empty_witness :
  let u := {| uri_object := HostUri 0; uri_text := "file:///r0.ts" |} in
  item_uri three_roots 0%nat = Some (Uri_toString u) ∧
  getEditorHighlights 0%nat u three_roots
    = (Returned [], set_uris (S (uris three_roots)) three_roots).
Proof.
  split; [reflexivity|].
  apply (getEditorHighlights_empty three_roots 0%nat (TypeItem_new R0 None)); [reflexivity|].
  exact I.
Defined.

(** ** Resolving children *)

Section Resolving.
Variable localeCompare : string -> string -> Z.
Variable svc : Service.

Lemma new_items_spec (types : list TypeHierarchyItem) (p : option TypeItemRef) (s : State) :
  new_items types p s
  = (Returned (seq (length (heap s)) (length types)),
     set_heap (heap s ++ ((fun i => TypeItem_new i p) <$> types)) s).
Proof.
  revert s. induction types as [|i rest IH]; intros s; simpl.
  - unfold ret. rewrite app_nil_r. by destruct s.
  - step_async. rewrite IH. simpl. rewrite length_app. simpl.
    replace (length (heap s) + 1)%nat with (S (length (heap s))) by lia.
    by rewrite <- app_assoc.
Qed.

Lemma _resolveTypes_spec (s : State) (type : TypeItemRef) (t : TypeItem) :
  heap s !! type = Some t →
  _resolveTypes localeCompare svc type s
  = match reply_for svc s t with
    | Fulfilled None => (Returned [], sent s t)
    | Fulfilled (Some types) =>
        let sorted := Array_sort (compareTypes localeCompare) types in
        (Returned (seq (length (heap s)) (length sorted)),
         set_heap (heap s ++ ((fun i => TypeItem_new i (Some type)) <$> sorted))
           (sent s t))
    | Failed why => (Threw why, sent s t)
    end.
Proof.
  intros Ht. unfold _resolveTypes, reply_for, sent, view_command. step_async. rewrite Ht.
  destruct (decide (view s = Supertype)); unfold executeCommand;
    (destruct (svc _ _ _) as [[types|]|why]; [|done..]);
    by rewrite new_items_spec.
Qed.

Lemma getTypeChildren_spec (s : State) (type : TypeItemRef) (t : TypeItem) :
  heap s !! type = Some t →
  getTypeChildren localeCompare svc type s
  = match children t with
    | Some c => (Returned c, s)
    | None =>
        match _resolveTypes localeCompare svc type s with
        | (Returned c, s1) => (Returned c, update type (with_children (Some c)) s1)
        | (Threw why, s1) => (Threw why, s1)
        | (Pending, s1) => (Pending, s1)
        end
    end.
Proof.
  intros Ht. unfold getTypeChildren. step_async. rewrite Ht.
  destruct (children t); [done|].
  by destruct (_resolveTypes localeCompare svc type s) as [[c| |] s1].
Qed.

Lemma _resolveTypes_heap (s s1 : State) (type : TypeItemRef) (t : TypeItem)
    (c : Completion (list TypeItemRef)) :
  heap s !! type = Some t →
  _resolveTypes localeCompare svc type s = (c, s1) →
  ∃ fresh : list TypeItem, heap s1 = (heap s ++ fresh)%list ∧ roots s1 = roots s ∧
    Forall (fun n => parent n = Some type) fresh.
Proof.
  intros Ht. rewrite (_resolveTypes_spec s type t Ht).
  destruct (reply_for svc s t) as [[types|]|why]; simpl; intros [= <- <-]; simpl.
  - eexists. split; [done|]. split; [done|].
    apply Forall_fmap, Forall_forall. done.
  - exists []. by rewrite app_nil_r.
  - exists []. by rewrite app_nil_r.
Qed.
End Resolving.

(** C7: a node whose [children] is set, to an empty array as well,
    answers [getTypeChildren] from the cache: no command is sent and
    nothing changes.  Hence a second call returns what the first one
    returned, in the state the first one left. *)
Theorem getTypeChildren_idempotent (localeCompare : string -> string -> Z)
    (svc : Service) (type : TypeItemRef) :
  (∀ s t c, heap s !! type = Some t → children t = Some c →
     getTypeChildren localeCompare svc type s = (Returned c, s)) ∧
  (∀ s c s1, getTypeChildren localeCompare svc type s = (Returned c, s1) →
     children_of s1 type = Some (Some c) ∧
     getTypeChildren localeCompare svc type s1 = (Returned c, s1) ∧
     calls (getTypeChildren localeCompare svc type s1).2 = calls s1).
Proof.
  assert (Hcached : ∀ s t c, heap s !! type = Some t → children t = Some c →
     getTypeChildren localeCompare svc type s = (Returned c, s)).
  { intros s t c Ht Hc. rewrite (getTypeChildren_spec _ _ s type t Ht). by rewrite Hc. }
  split; [exact Hcached|].
  intros s c s1 Hrun.
  assert (Hset : children_of s1 type = Some (Some c)).
  { destruct (heap s !! type) as [t|] eqn:Ht.
    - rewrite (getTypeChildren_spec _ _ s type t Ht) in Hrun.
      destruct (children t) as [c0|] eqn:Hc.
      + injection Hrun as <- <-. unfold children_of. by rewrite Ht; simpl; rewrite Hc.
      + destruct (_resolveTypes localeCompare svc type s) as [[c1| |] s2] eqn:Hres;
          try discriminate.
        injection Hrun as <- <-.
        destruct (_resolveTypes_heap _ _ s s2 type t _ Ht Hres) as (fresh & Hheap & _).
        assert (Ht2 : heap s2 !! type = Some t).
        { rewrite Hheap. by apply lookup_app_l_Some. }
        unfold children_of, update. rewrite Ht2. simpl.
        rewrite list_lookup_insert_eq; [done|]. by eapply lookup_lt_Some.
    - revert Hrun. unfold getTypeChildren. step_async. by rewrite Ht. }
  unfold children_of in Hset.
  destruct (heap s1 !! type) as [t1|] eqn:Ht1; [|discriminate].
  simpl in Hset. injection Hset as Hc1.
  rewrite (Hcached s1 t1 c Ht1 Hc1). repeat split.
  unfold children_of. rewrite Ht1. simpl. by rewrite Hc1.
Qed.

(** A root whose children were resolved to nothing, asked again. *)
Lemma getTypeChildren_idempotent_witness :
  let s := three_roots in
  let s1 := (getTypeChildren codeCompare silent 0%nat s).2 in
  getTypeChildren codeCompare silent 0%nat s1 = (Returned [], s1) ∧
  calls s1 = [(CmdSupertypes, R0)].
Proof.
  split; [|reflexivity].
  apply (proj1 (getTypeChildren_idempotent codeCompare silent 0%nat) _
           (with_children (Some []) (TypeItem_new R0 None)) []);
    reflexivity.
Defined.

(** C8 (as amended): when the command is fulfilled with nothing, or with
    an empty array, the caller of [getTypeChildren] gets the empty
    sequence and it is cached as [children = []]; when the command is
    rejected, the rejection reaches the caller and [children] stays
    unset.  In each case exactly one command was sent. *)
Theorem getTypeChildren_no_result (localeCompare : string -> string -> Z)
    (svc : Service) (s : State) (type : TypeItemRef) (t : TypeItem) :
  heap s !! type = Some t →
  children t = None →
  match reply_for svc s t with
  | Fulfilled None | Fulfilled (Some []) =>
      ∃ s1, getTypeChildren localeCompare svc type s = (Returned [], s1) ∧
            children_of s1 type = Some (Some []) ∧
            calls s1 = (calls s ++ [(view_command (view s), item t)])%list
  | Fulfilled (Some (_ :: _)) => True
  | Failed why =>
      ∃ s1, getTypeChildren localeCompare svc type s = (Threw why, s1) ∧
            children_of s1 type = Some None ∧
            calls s1 = (calls s ++ [(view_command (view s), item t)])%list
  end.
Proof.
  intros Ht Hc.
  rewrite (getTypeChildren_spec _ _ s type t Ht), Hc, (_resolveTypes_spec _ _ s type t Ht).
  assert (Hcached : children_of (update type (with_children (Some [])) (sent s t)) type
                    = Some (Some [])).
  { unfold children_of, update. simpl. rewrite Ht. simpl.
    rewrite list_lookup_insert_eq; [done|]. by eapply lookup_lt_Some. }
  destruct (reply_for svc s t) as [[[|i types]|]|why]; simpl; [| done | |].
  - eexists. split; [reflexivity|]. rewrite app_nil_r.
    split; [|by unfold update; simpl; rewrite Ht].
    by destruct s.
  - eexists. split; [reflexivity|]. split; [done|]. by unfold update; simpl; rewrite Ht.
  - eexists. split; [reflexivity|]. split; [|done].
    unfold children_of. simpl. by rewrite Ht; simpl; rewrite Hc.
Qed.

Lemma getTypeChildren_no_result_witness :
  ∃ s1, getTypeChildren codeCompare failing 0%nat three_roots
          = (Threw "command failed", s1) ∧
        children_of s1 0%nat = Some None ∧
        calls s1 = [(CmdSupertypes, R0)].
Proof.
  exact (getTypeChildren_no_result codeCompare failing three_roots 0%nat
           (TypeItem_new R0 None) eq_refl eq_refl).
Defined.

(** C8 (as stated) fails: a rejected command is not turned into an empty
    sequence; the caller gets the rejection and nothing is cached. *)
Lemma getTypeChildren_rejection_propagates :
  let '(outcome, s1) := getTypeChildren codeCompare failing 0%nat three_roots in
  reply_for failing three_roots (TypeItem_new R0 None) = Failed "command failed" ∧
  outcome = Threw "command failed" ∧
  outcome ≠ Returned [] ∧
  children_of s1 0%nat = Some None ∧
  children_of s1 0%nat ≠ Some (Some []).
Proof. vm_compute. repeat split; discriminate. Qed.


(** ** Display state *)

(** C9: for a node that is not a root and not flagged [expand], a cached
    empty [children] gives the state [None] (a leaf), and unset
    [children] with prefetch off gives [Collapsed]; in both cases no
    command is sent and no node changes (the only effect is the [Uri]
    built for the item's command). *)
Theorem getTreeItem_leaf_or_collapsed (localeCompare : string -> string -> Z)
    (svc : Service) (fuel : nat) (s : State) (element : TypeItemRef) (t : TypeItem) :
  heap s !! element = Some t →
  includes (roots s) element = false →
  expand t ≠ Some true →
  (children t = Some [] →
     ∃ ti, getTreeItem localeCompare svc fuel element s
             = (Returned ti, set_uris (S (uris s)) s) ∧
           collapsibleState ti = None_) ∧
  (children t = None → prefetch s = false →
     ∃ ti, getTreeItem localeCompare svc fuel element s
             = (Returned ti, set_uris (S (uris s)) s) ∧
           collapsibleState ti = Collapsed).
Proof.
  intros Ht Hroot Hexp.
  assert (Hflag : bool_decide (expand t = Some true) = false)
    by by apply bool_decide_eq_false_2.
  split.
  - intros Hc. unfold getTreeItem. step_async.
    rewrite Ht, Hroot, Hflag, andb_false_r, Hc. simpl. eauto.
  - intros Hc Hpre. unfold getTreeItem. step_async.
    rewrite Ht, Hroot, Hflag, andb_false_r, Hc, Hpre. simpl. eauto.
Qed.

Lemma getTreeItem_leaf_or_collapsed_witness :
  (∃ ti, getTreeItem codeCompare one_child 0 1%nat child_unresolved
           = (Returned ti, set_uris (S (uris child_unresolved)) child_unresolved) ∧
         collapsibleState ti = Collapsed) ∧
  (∃ ti, getTreeItem codeCompare one_child 0 1%nat child_resolved_empty
           = (Returned ti, set_uris (S (uris child_resolved_empty)) child_resolved_empty) ∧
         collapsibleState ti = None_).
Proof.
  split.
  - apply (getTreeItem_leaf_or_collapsed codeCompare one_child 0 child_unresolved 1%nat
             (TypeItem_new R1 (Some 0%nat)));
      [reflexivity | reflexivity | discriminate | reflexivity | reflexivity].
  - apply (getTreeItem_leaf_or_collapsed codeCompare one_child 0 child_resolved_empty 1%nat
             (with_children (Some []) (TypeItem_new R1 (Some 0%nat))));
      [reflexivity | reflexivity | discriminate | reflexivity].
Defined.

(** ** Removal and the change event *)

Lemma del_absent {A} `{EqDecision A} (l : list A) (e : A) :
  e ∉ l → del l e = l.
Proof.
  intros H. unfold del. apply indexOf_absent in H.
  destruct (0 <=? indexOf l e) eqn:E; [|done]. apply Z.leb_le in E. lia.
Qed.

Lemma del_present {A} `{EqDecision A} (l : list A) (e : A) :
  e ∈ l →
  ∃ l1 l2, l = (l1 ++ (e :: l2))%list ∧ (e ∉ l1) ∧ del l e = (l1 ++ l2)%list.
Proof.
  induction l as [|x l IH]; [by intros ?%elem_of_nil|].
  intros Hin. unfold del. simpl.
  destruct (decide (x = e)) as [->|Hne].
  - exists [], l. simpl. split; [done|]. split; [apply not_elem_of_nil|].
    unfold splice1. simpl. by rewrite drop_0.
  - apply elem_of_cons in Hin as [->|Hin]; [done|].
    destruct (IH Hin) as (l1 & l2 & Hl & Hnot & Hdel).
    assert (Hidx : 0 <= indexOf l e).
    { destruct (Z.lt_ge_cases (indexOf l e) 0) as [Hlt|]; [|done].
      by apply indexOf_absent in Hlt. }
    unfold del in Hdel.
    destruct (0 <=? indexOf l e) eqn:E; [|apply Z.leb_gt in E; lia].
    destruct (indexOf l e <? 0) eqn:E'; [apply Z.ltb_lt in E'; lia|].
    destruct (0 <=? indexOf l e + 1) eqn:E''; [|apply Z.leb_gt in E''; lia].
    exists (x :: l1), l2. split; [by rewrite Hl|].
    split; [rewrite not_elem_of_cons; split; [congruence | done]|].
    replace (Z.to_nat (indexOf l e + 1)) with (S (Z.to_nat (indexOf l e))) by lia.
    unfold splice1 in *. simpl. by rewrite Hdel.
Qed.

(** How [remove] ends, by the sibling array it finds. *)
Lemma remove_spec (s : State) (it : TypeItemRef) (t : TypeItem) :
  heap s !! it = Some t →
  remove it s
  = if includes (roots s) it then
      (Returned tt,
       set_treeEvents (treeEvents s ++ [None])
         (set_modelEvents (modelEvents s ++ [PayloadModel])
            (set_roots (del (roots s) it) s)))
    else
      match parent t with
      | None => (Returned tt, s)
      | Some p =>
          match heap s !! p with
          | None => (Threw "no such object", s)
          | Some pt =>
              match children pt with
              | None => (Returned tt, s)
              | Some siblings =>
                  (Returned tt,
                   set_treeEvents (treeEvents s ++ [None])
                     (set_modelEvents (modelEvents s ++ [PayloadModel])
                        (set_heap (<[p := with_children (Some (del siblings it)) pt]> (heap s)) s)))
              end
          end
      end.
Proof.
  intros Ht. unfold remove. step_async. rewrite Ht.
  destruct (includes (roots s) it); [done|].
  destruct (parent t) as [p|]; [|done]. simpl.
  destruct (heap s !! p) as [pt|] eqn:Hp; [|done].
  destruct (children pt) as [siblings|]; [|done]. simpl.
  unfold update. by rewrite Hp.
Qed.

(** C5 (as amended): [remove] looks for the sibling array, the roots if
    the node is among them and else its parent's children.  When there
    is such an array, the node's first occurrence is deleted from it (an
    array that does not hold the node stays as it is) and exactly one
    change event is fired, its payload the model; this holds also when
    the array does not hold the node.  When there is no such array,
    nothing changes and no event is fired. *)
Theorem remove_fires_when_array_found (s : State) (it : TypeItemRef) (t : TypeItem) :
  heap s !! it = Some t →
  (∀ p, parent t = Some p → is_Some (heap s !! p)) →
  match sibling_array s it with
  | Some siblings =>
      ∃ s1, remove it s = (Returned tt, s1) ∧
        (if includes (roots s) it
         then roots s1 = del siblings it ∧ heap s1 = heap s
         else roots s1 = roots s ∧
              ∃ p pt, parent t = Some p ∧ heap s !! p = Some pt ∧
                heap s1 = <[p := with_children (Some (del siblings it)) pt]> (heap s)) ∧
        (it ∉ siblings → del siblings it = siblings) ∧
        (it ∈ siblings →
           ∃ l1 l2, siblings = (l1 ++ (it :: l2))%list ∧ (it ∉ l1) ∧
                    del siblings it = (l1 ++ l2)%list) ∧
        modelEvents s1 = (modelEvents s ++ [PayloadModel])%list ∧
        treeEvents s1 = (treeEvents s ++ [None])%list
  | None => remove it s = (Returned tt, s)
  end.
Proof.
  intros Ht Hp. rewrite (remove_spec s it t Ht).
  unfold sibling_array. rewrite Ht. simpl.
  destruct (includes (roots s) it) eqn:Hin.
  - eexists. split; [reflexivity|]. simpl.
    repeat split; auto using del_absent, del_present.
  - unfold parent_children.
    destruct (parent t) as [p|] eqn:Hpar; [|done]. simpl.
    destruct (Hp p eq_refl) as [pt Hpt]. rewrite Hpt. simpl.
    destruct (children pt) as [siblings|]; [|done].
    eexists. split; [reflexivity|]. simpl.
    repeat split; eauto using del_absent, del_present.
Qed.

(** Removing the middle one of three roots. *)
Lemma remove_fires_when_array_found_witness :
  ∃ s1, remove 1%nat three_roots = (Returned tt, s1) ∧
        roots s1 = [0; 2]%nat ∧
        modelEvents s1 = [PayloadModel] ∧ treeEvents s1 = [None].
Proof.
  assert (Hp : ∀ p, parent (TypeItem_new R1 None) = Some p →
               is_Some (heap three_roots !! p)) by (intros p [=]).
  destruct (remove_fires_when_array_found three_roots 1%nat (TypeItem_new R1 None)
              eq_refl Hp) as (s1 & Hrun & Harr & _ & _ & Hm & Ht).
  exists s1. simpl in Harr. destruct Harr as [Hroots _].
  repeat split; assumption.
Defined.

(** C5 (as stated) fails: in [removed_once] the node 1 is in no sibling
    array, neither the roots nor the children of any node, and removing
    it again still fires a change event. *)
Lemma remove_absent_node_fires :
  let '(outcome, s1) := remove 1%nat removed_once in
  includes (roots removed_once) 1%nat = false ∧
  Forall (fun n => match children n with
                   | Some c => includes c 1%nat = false
                   | None => True
                   end) (heap removed_once) ∧
  sibling_array removed_once 1%nat = Some [] ∧
  outcome = Returned tt ∧
  modelEvents removed_once = [PayloadModel] ∧
  modelEvents s1 = [PayloadModel; PayloadModel] ∧
  s1 ≠ removed_once.
Proof.
  vm_compute. repeat split; try discriminate.
  repeat constructor.
Qed.

(** ** Class view: climbing to the root of the class chain *)


Section Climb.
Variable svc : Service.

Lemma update_lookup (s : State) (r : TypeItemRef) (f : TypeItem -> TypeItem)
    (t : TypeItem) :
  heap s !! r = Some t → update r f s = set_heap (<[r := f t]> (heap s)) s.
Proof. intros Ht. unfold update. by rewrite Ht. Qed.

Lemma getClassViewRoot_step (fuel : nat) (r : TypeItemRef) (s : State) (t : TypeItem) :
  heap s !! r = Some t →
  getClassViewRoot svc (S fuel) r s
  = match svc (length (calls s)) CmdSupertypes (item t) with
    | Failed why => (Threw why, asked s r t)
    | Fulfilled None => (Returned r, asked s r t)
    | Fulfilled (Some supertypes) =>
        match List.find is_class supertypes with
        | Some y => getClassViewRoot svc fuel (length (heap s)) (linked s r t y)
        | None => (Returned r, asked s r t)
        end
    end.
Proof.
  intros Ht. pose proof (lookup_lt_Some _ _ _ Ht) as Hlt.
  simpl. step_async. rewrite (update_lookup s r _ t Ht). simpl.
  rewrite list_lookup_insert_eq by done. unfold executeCommand. simpl.
  destruct (svc (length (calls s)) CmdSupertypes (item t)) as [[sups|]|why];
    [|done..].
  fold is_class.
  destruct sups as [|i sups]; [done|].
  destruct (List.find is_class (i :: sups)) as [y|]; [|done].
  step_async. rewrite length_insert. f_equal.
  rewrite (update_lookup _ r _ (with_expand (Some true) t)); last first.
  { simpl. rewrite lookup_app_l by (by rewrite length_insert).
    by apply list_lookup_insert_eq. }
  simpl. rewrite insert_app_l by (by rewrite length_insert).
  rewrite list_insert_insert_eq.
  rewrite (update_lookup _ (length (heap s)) _ (TypeItem_new y None)); last first.
  { simpl. rewrite lookup_app_r by (rewrite length_insert; lia).
    by rewrite length_insert, Nat.sub_diag. }
  simpl. unfold linked, asked, set_heap, set_calls. simpl. f_equal.
  rewrite insert_app_r_alt by (rewrite length_insert; lia).
  by rewrite length_insert, Nat.sub_diag.
Qed.

(** Climbing from [r] touches, among the objects that exist, only [r]. *)
Lemma getClassViewRoot_frame (fuel : nat) (r : TypeItemRef) (s : State) :
  let s' := (getClassViewRoot svc fuel r s).2 in
  (length (heap s) <= length (heap s'))%nat ∧
  roots s' = roots s ∧ modelEvents s' = modelEvents s ∧
  view s' = view s ∧
  ∀ n, (n < length (heap s))%nat → n ≠ r → heap s' !! n = heap s !! n.
Proof.
  revert r s. induction fuel as [|fuel IH]; intros r s; [by simpl|].
  destruct (heap s !! r) as [t|] eqn:Ht.
  - rewrite (getClassViewRoot_step fuel r s t Ht).
    assert (Hasked : ∀ c : Completion TypeItemRef,
      let s' := (c, asked s r t).2 in
      (length (heap s) <= length (heap s'))%nat ∧
      roots s' = roots s ∧ modelEvents s' = modelEvents s ∧
      view s' = view s ∧
      ∀ n, (n < length (heap s))%nat → n ≠ r → heap s' !! n = heap s !! n).
    { intros c. simpl. rewrite length_insert. repeat split; [lia|].
      intros n _ Hn. by rewrite list_lookup_insert_ne. }
    destruct (svc _ _ _) as [[sups|]|why]; [|apply Hasked..].
    destruct (List.find is_class sups) as [y|]; [|apply Hasked].
    destruct (IH (length (heap s)) (linked s r t y)) as (Hlen & Hr & Hm & Hte & Hfr).
    simpl in *. rewrite length_app, length_insert in Hlen. simpl in Hlen.
    repeat split; [lia|done..|].
    intros n Hn Hne. rewrite Hfr.
    + rewrite lookup_app_l by (by rewrite length_insert).
      by rewrite list_lookup_insert_ne.
    + rewrite length_app, length_insert. simpl. lia.
    + lia.
  - simpl. step_async. unfold update. rewrite Ht. simpl. by rewrite Ht.
Qed.

(** After a climb from [r] of at least one step, [r] is flagged
    [expand] and keeps its item and children, however the climb ends. *)
Lemma getClassViewRoot_expands (fuel : nat) (r : TypeItemRef) (s : State) (t : TypeItem) :
  heap s !! r = Some t →
  ∃ t', heap (getClassViewRoot svc (S fuel) r s).2 !! r = Some t' ∧
        item t' = item t ∧ children t' = children t ∧ expand t' = Some true.
Proof.
  intros Ht. pose proof (lookup_lt_Some _ _ _ Ht) as Hlt.
  rewrite (getClassViewRoot_step fuel r s t Ht).
  assert (Hasked : ∀ c : Completion TypeItemRef,
    ∃ t', heap (c, asked s r t).2 !! r = Some t' ∧
          item t' = item t ∧ children t' = children t ∧ expand t' = Some true).
  { intros c. simpl. rewrite list_lookup_insert_eq by done. eauto. }
  destruct (svc _ _ _) as [[sups|]|why]; [|apply Hasked..].
  destruct (List.find is_class sups) as [y|]; [|apply Hasked].
  destruct (getClassViewRoot_frame fuel (length (heap s)) (linked s r t y))
    as (_ & _ & _ & _ & Hfr).
  rewrite Hfr.
  - simpl. rewrite lookup_app_l by (by rewrite length_insert).
    rewrite list_lookup_insert_eq by done. eauto.
  - simpl. rewrite length_app, length_insert. simpl. lia.
  - lia.
Qed.
End Climb.

Lemma find_first {A} (f : A -> bool) (l : list A) (y : A) :
  List.find f l = Some y →
  ∃ skipped rest, l = (skipped ++ (y :: rest))%list ∧
    Forall (fun i => f i = false) skipped ∧ f y = true.
Proof.
  induction l as [|x l IH]; simpl; [discriminate|].
  destruct (f x) eqn:Hx.
  - intros [= ->]. exists [], l. auto.
  - intros (skipped & rest & -> & Hsk & Hy)%IH.
    exists (x :: skipped), rest. auto.
Qed.

(** C2: from a node [r], the climb flags [r] and asks for its
    supertypes.  If the answer is nothing, or holds no class, the climb
    returns [r].  Otherwise it takes the first class [y] of the answer,
    whatever comes before it being skipped, makes a new node for [y]
    without parent whose only child is [r], sets it as the parent of [r],
    and goes on from the new node, which that next step flags [expand]
    while its item and its children stay.  For X with the supertypes
    InterfaceI and ClassY, the top-level [getChildren] of the class view
    returns the new node of ClassY, with X as its only child and
    [expand = true], after asking ClassY for its supertypes in vain. *)
Theorem getClassViewRoot_class_chain (svc : Service) (fuel : nat)
    (r : TypeItemRef) (s : State) (t : TypeItem) :
  heap s !! r = Some t →
  (∀ supertypes,
     svc (length (calls s)) CmdSupertypes (item t) = Fulfilled supertypes →
     List.find is_class (default [] supertypes) = None →
     getClassViewRoot svc (S fuel) r s = (Returned r, asked s r t) ∧
     expand_of (asked s r t) r = Some (Some true)) ∧
  (∀ supertypes y,
     svc (length (calls s)) CmdSupertypes (item t) = Fulfilled (Some supertypes) →
     List.find is_class supertypes = Some y →
     let top := length (heap s) in
     (∃ skipped rest, supertypes = (skipped ++ (y :: rest))%list ∧
        Forall (fun i => kind i ≠ KindClass) skipped ∧ kind y = KindClass) ∧
     getClassViewRoot svc (S fuel) r s
       = getClassViewRoot svc fuel top (linked s r t y) ∧
     heap (linked s r t y) !! top
       = Some {| item := y; children := Some [r]; parent := None; expand := None |} ∧
     heap (linked s r t y) !! r
       = Some {| item := item t; children := children t;
                 parent := Some top; expand := Some true |} ∧
     ∀ fuel', fuel = S fuel' →
       ∃ t', heap (getClassViewRoot svc (S fuel) r s).2 !! top = Some t' ∧
             item t' = y ∧ children t' = Some [r] ∧ expand t' = Some true) ∧
  (getChildren codeCompare java 3 None class_session
   = (Returned [1%nat],
      {| heap := [ {| item := X; children := None;
                      parent := Some 1%nat; expand := Some true |};
                   {| item := ClassY; children := Some [0%nat];
                      parent := None; expand := Some true |} ];
         roots := [0%nat]; view := Class; prefetch := false;
         modelEvents := []; treeEvents := [];
         calls := [(CmdSupertypes, X); (CmdSupertypes, ClassY)];
         uris := 0 |})).
Proof.
  intros Ht. pose proof (lookup_lt_Some _ _ _ Ht) as Hlt.
  split; [|split; [|reflexivity]].
  - intros sups Hreply Hnone.
    rewrite (getClassViewRoot_step svc fuel r s t Ht), Hreply.
    split.
    + destruct sups as [sups|]; [|done]. simpl in Hnone. by rewrite Hnone.
    + unfold expand_of, asked. simpl. by rewrite list_lookup_insert_eq.
  - intros sups y Hreply Hfind top.
    assert (Hstep : getClassViewRoot svc (S fuel) r s
                    = getClassViewRoot svc fuel top (linked s r t y)).
    { by rewrite (getClassViewRoot_step svc fuel r s t Ht), Hreply, Hfind. }
    assert (Htop : heap (linked s r t y) !! top
      = Some {| item := y; children := Some [r]; parent := None; expand := None |}).
    { unfold linked, top. simpl.
      rewrite lookup_app_r by (rewrite length_insert; lia).
      by rewrite length_insert, Nat.sub_diag. }
    split; [|split; [done|split; [done|split]]].
    + destruct (find_first _ _ _ Hfind) as (skipped & rest & -> & Hsk & Hy).
      exists skipped, rest. split; [done|]. split.
      * eapply Forall_impl; [exact Hsk|]. intros i Hi.
        by apply bool_decide_eq_false_1 in Hi.
      * by apply bool_decide_eq_true_1 in Hy.
    + unfold linked. simpl. rewrite lookup_app_l by (by rewrite length_insert).
      by rewrite list_lookup_insert_eq.
    + intros fuel' ->. rewrite Hstep.
      destruct (getClassViewRoot_expands svc fuel' top (linked s r t y) _ Htop)
        as (t' & Ht' & Hi & Hc & He).
      exists t'. auto.
Qed.

(** The first step of the climb from X in the class view. *)
Lemma getClassViewRoot_class_chain_witness :
  getClassViewRoot java 2 0%nat class_session
  = getClassViewRoot java 1 1%nat
      (linked class_session 0%nat (TypeItem_new X None) ClassY).
Proof.
  destruct (getClassViewRoot_class_chain java 1 0%nat class_session
              (TypeItem_new X None) eq_refl) as (_ & Hup & _).
  destruct (Hup [InterfaceI; ClassY] ClassY eq_refl eq_refl) as (_ & Hstep & _).
  exact Hstep.
Defined.

(** ** What every call leaves in place *)

Section Preserves.
Context (R : relation State) `{!Frame R}.

Lemma preserves_ret {A} (a : A) : preserves R (ret a).
Proof. intros s. simpl. reflexivity. Qed.

Lemma preserves_bind {A B} (m : Async A) (k : A -> Async B) :
  preserves R m → (∀ a, preserves R (k a)) → preserves R (bind m k).
Proof.
  intros Hm Hk s. unfold bind. specialize (Hm s).
  destruct (m s) as [[a| |] s1]; simpl in *; [|done..].
  etrans; [exact Hm|]. apply Hk.
Qed.

Lemma preserves_get : preserves R get.
Proof. intros s. simpl. reflexivity. Qed.

Lemma preserves_deref (r : TypeItemRef) : preserves R (deref r).
Proof. intros s. unfold deref. destruct (heap s !! r); simpl; reflexivity. Qed.

Lemma preserves_modify (f : State -> State) :
  (∀ s, R s (f s)) → preserves R (modify f).
Proof. intros Hf s. apply Hf. Qed.

Lemma preserves_Uri_parse (text : string) : preserves R (lift (Uri_parse text)).
Proof. intros s. apply frame_uris. Qed.

Lemma preserves_emitter_fire (e : option TypeItemRef) : preserves R (emitter_fire e).
Proof. intros s. apply frame_treeEvents. Qed.

Lemma preserves_executeCommand (svc : Service) (c : Command) (i : TypeHierarchyItem) :
  preserves R (executeCommand svc c i).
Proof.
  intros s. unfold executeCommand. destruct (svc _ _ _); simpl; apply frame_calls.
Qed.

Lemma preserves_new_items (types : list TypeHierarchyItem) (p : option TypeItemRef) :
  preserves R (new_items types p).
Proof. intros s. rewrite new_items_spec. apply frame_alloc. Qed.

Ltac preserve :=
  repeat first
    [ apply preserves_ret | apply preserves_get | apply preserves_deref
    | apply preserves_Uri_parse | apply preserves_emitter_fire
    | apply preserves_executeCommand | apply preserves_new_items
    | apply preserves_modify; intros ?; apply frame_children
    | apply preserves_bind; [|intros ?]
    | match goal with
      | |- preserves _ (match ?x with _ => _ end) => destruct x
      end ].

Variable localeCompare : string -> string -> Z.
Variable svc : Service.

Lemma preserves__resolveTypes (type : TypeItemRef) :
  preserves R (_resolveTypes localeCompare svc type).
Proof. unfold _resolveTypes. preserve. Qed.

Lemma preserves_getTypeChildren (type : TypeItemRef) :
  preserves R (getTypeChildren localeCompare svc type).
Proof. unfold getTypeChildren. preserve. Qed.

Lemma preserves_getChildren_of (fuel : nat) (element : TypeItemRef) :
  preserves R (getChildren localeCompare svc fuel (Some element)).
Proof. unfold getChildren. preserve. Qed.

Lemma preserves_getTreeItem (fuel : nat) (element : TypeItemRef) :
  preserves R (getTreeItem localeCompare svc fuel element).
Proof. unfold getTreeItem. preserve. Qed.

Lemma preserves_getEditorHighlights (it : TypeItemRef) (u : Uri) :
  preserves R (getEditorHighlights it u).
Proof. unfold getEditorHighlights. preserve. Qed.

Lemma preserves_location (it : TypeItemRef) : preserves R (location it).
Proof. unfold location. preserve. Qed.
End Preserves.

Global Instance quiet_frame : Frame quiet.
Proof.
  split; try done.
  - split; [by intros s | intros s1 s2 s3 H1 H2; unfold quiet in *; congruence].
  - intros s r c. unfold quiet, update. by destruct (heap s !! r).
Qed.

Lemma keeps_from_refl (k : nat) (s s' : State) :
  view s' = view s → roots s' = roots s → heap s' = heap s → keeps_from k s s'.
Proof.
  intros Hv Hr Hh. split; [done|]. split; [by rewrite Hr|].
  intros n t Ht. rewrite Hh. eauto.
Qed.

Global Instance keeps_from_frame (k : nat) : Frame (keeps_from k).
Proof.
  split.
  - split.
    + intros s. by apply keeps_from_refl.
    + intros s1 s2 s3 (Hv1 & Hr1 & Hh1) (Hv2 & Hr2 & Hh2).
      split; [congruence|]. split; [auto|].
      intros n t Ht. destruct (Hh1 n t Ht) as (t2 & Ht2 & Hi2 & Hp2).
      destruct (Hh2 n t2 Ht2) as (t3 & Ht3 & Hi3 & Hp3).
      exists t3. split; [done|]. split; [congruence|].
      intros Hk. rewrite Hp3, Hp2; done.
  - intros s n. by apply keeps_from_refl.
  - intros s c. by apply keeps_from_refl.
  - intros s e. by apply keeps_from_refl.
  - intros s fresh. split; [done|]. split; [done|].
    intros n t Ht. exists t. split; [|done]. simpl. by apply lookup_app_l_Some.
  - intros s r c. unfold update.
    destruct (heap s !! r) as [t0|] eqn:Hr; [|by apply keeps_from_refl].
    split; [done|]. split; [done|].
    intros n t Ht. simpl. destruct (decide (n = r)) as [Heq|Hne].
    + subst. assert (t = t0) as -> by congruence.
      rewrite list_lookup_insert_eq by (by eapply lookup_lt_Some). eauto.
    + rewrite list_lookup_insert_ne by done. eauto.
Qed.

Lemma keeps_from_le (k k' : nat) (s s' : State) :
  (k <= k')%nat → keeps_from k s s' → keeps_from k' s s'.
Proof.
  intros Hk (Hv & Hr & Hh). split; [done|]. split; [done|].
  intros n t Ht. destruct (Hh n t Ht) as (t' & Ht' & Hi & Hp).
  exists t'. split; [done|]. split; [done|]. intros Hn. apply Hp. lia.
Qed.

Lemma del_subseteq {A} `{EqDecision A} (l : list A) (e x : A) :
  x ∈ del l e → x ∈ l.
Proof.
  destruct (decide (e ∈ l)) as [Hin|Hnot].
  - destruct (del_present l e Hin) as (l1 & l2 & -> & _ & ->).
    rewrite !elem_of_app, elem_of_cons. tauto.
  - by rewrite del_absent.
Qed.

Lemma remove_keeps (k : nat) (it : TypeItemRef) : preserves (keeps_from k) (remove it).
Proof.
  intros s. destruct (heap s !! it) as [t|] eqn:Ht.
  - rewrite (remove_spec s it t Ht).
    destruct (includes (roots s) it).
    + split; [done|]. split; [simpl; apply del_subseteq|]. simpl. eauto.
    + destruct (parent t) as [p|]; [|reflexivity].
      destruct (heap s !! p) as [pt|] eqn:Hp; [|reflexivity].
      destruct (children pt) as [siblings|]; [|reflexivity].
      pose proof (frame_children (R := keeps_from k) s p (Some (del siblings it)))
        as (Hv & Hr & Hh).
      rewrite (update_lookup s p _ pt Hp) in Hv, Hr, Hh.
      split; [done|]. split; [done|]. exact Hh.
  - unfold remove. step_async. rewrite Ht. reflexivity.
Qed.

Section ClimbKeeps.
Variable localeCompare : string -> string -> Z.
Variable svc : Service.

Lemma getClassViewRoot_keeps (fuel : nat) (r : TypeItemRef) (s : State)
    (n : nat) (t : TypeItem) :
  heap s !! n = Some t →
  ∃ t', heap (getClassViewRoot svc fuel r s).2 !! n = Some t' ∧
        item t' = item t ∧ (n ≠ r → parent t' = parent t).
Proof.
  intros Ht. destruct (decide (n = r)) as [->|Hne].
  - destruct fuel as [|fuel]; [simpl; eauto|].
    destruct (getClassViewRoot_expands svc fuel r s t Ht) as (t' & Ht' & Hi & _).
    exists t'. split; [done|]. split; [done|]. done.
  - destruct (getClassViewRoot_frame svc fuel r s) as (_ & _ & _ & _ & Hfr).
    exists t. rewrite Hfr; [done| |done]. by eapply lookup_lt_Some.
Qed.

Lemma bind_ret_state {A B} (m : Async A) (f : A -> B) (s : State) :
  (bind m (fun a => ret (f a)) s).2 = (m s).2.
Proof. unfold bind, ret. by destruct (m s) as [[a| |] s1]. Qed.

(** The top-level [getChildren()]: what it leaves in place when every
    root has an address below [k]. *)
Lemma materialization_keeps (k fuel : nat) (s : State) :
  (∀ x, x ∈ roots s → (x < k)%nat) →
  keeps_from k s (getChildren localeCompare svc fuel None s).2.
Proof.
  intros Hroots. unfold getChildren. step_async.
  destruct (decide (view s = Class)); [|reflexivity].
  destruct (List.find _ (roots s)) as [root|] eqn:Hfind; [|reflexivity].
  apply find_some in Hfind as [Hin _]. apply list_elem_of_In, Hroots in Hin.
  change (keeps_from k s
    (bind (getClassViewRoot svc fuel root) (fun top => ret [top]) s).2).
  rewrite bind_ret_state.
  destruct (getClassViewRoot_frame svc fuel root s) as (_ & Hr & _ & Hv & _).
  split; [done|]. split; [by rewrite Hr|].
  intros n t Ht.
  destruct (getClassViewRoot_keeps fuel root s n t Ht) as (t' & Ht' & Hi & Hp).
  exists t'. split; [done|]. split; [done|]. intros Hk. apply Hp. lia.
Qed.

Lemma materialization_quiet (fuel : nat) (s : State) :
  quiet s (getChildren localeCompare svc fuel None s).2.
Proof.
  unfold getChildren. step_async.
  destruct (decide (view s = Class)); [|reflexivity].
  destruct (List.find _ (roots s)) as [root|]; [|reflexivity].
  change (quiet s
    (bind (getClassViewRoot svc fuel root) (fun top => ret [top]) s).2).
  rewrite bind_ret_state.
  by destruct (getClassViewRoot_frame svc fuel root s) as (_ & _ & Hm & _).
Qed.

(** Every operation but the materialization keeps every parent. *)
Lemma run_op_keeps (o : Op) (s : State) :
  is_materialization o = false → keeps_from 0 s (run_op localeCompare svc o s).
Proof.
  destruct o as [fuel [e|]|fuel e|type|it|it u|it]; simpl; try done; intros _.
  - apply preserves_getChildren_of, _.
  - apply preserves_getTreeItem, _.
  - apply preserves_getTypeChildren, _.
  - apply remove_keeps.
  - apply preserves_getEditorHighlights, _.
  - apply preserves_location, _.
Qed.

(** Every operation but [remove] fires no change event of the model. *)
Lemma run_op_quiet (o : Op) (s : State) :
  (∀ it, o ≠ OpRemove it) → quiet s (run_op localeCompare svc o s).
Proof.
  destruct o as [fuel [e|]|fuel e|type|it|it u|it]; simpl; intros Hrm.
  - apply preserves_getChildren_of, _.
  - apply materialization_quiet.
  - apply preserves_getTreeItem, _.
  - apply preserves_getTypeChildren, _.
  - by destruct (Hrm it).
  - apply preserves_getEditorHighlights, _.
  - apply preserves_location, _.
Qed.
End ClimbKeeps.

Section Sessions.
Variable localeCompare : string -> string -> Z.
Variable svc : Service.

Lemma run_snoc (ops : list Op) (o : Op) (s : State) :
  run localeCompare svc (ops ++ [o]) s
  = run_op localeCompare svc o (run localeCompare svc ops s).
Proof. unfold run. by rewrite foldl_app. Qed.

Lemma getChildren_other_view (fuel : nat) (s : State) :
  view s ≠ Class → (getChildren localeCompare svc fuel None s).2 = s.
Proof. intros Hv. unfold getChildren. step_async. by destruct (decide (view s = Class)). Qed.

Lemma run_op_keeps_from (k : nat) (o : Op) (s : State) :
  (∀ x, x ∈ roots s → (x < k)%nat) →
  keeps_from k s (run_op localeCompare svc o s).
Proof.
  intros Hroots. destruct (is_materialization o) eqn:Hm.
  - destruct o as [fuel [e|]| | | | |]; try discriminate.
    by apply materialization_keeps.
  - eapply keeps_from_le; [|by apply run_op_keeps]. lia.
Qed.

(** In a session, the roots stay among the nodes the model was built
    with, and what is kept across one operation is kept across all. *)
Lemma run_keeps_from (k : nat) (ops : list Op) (s : State) :
  (∀ x, x ∈ roots s → (x < k)%nat) →
  keeps_from k s (run localeCompare svc ops s).
Proof.
  intros Hroots. induction ops as [|o ops IH] using rev_ind; [reflexivity|].
  rewrite run_snoc. etrans; [exact IH|].
  apply run_op_keeps_from. intros x Hx. apply Hroots.
  by destruct IH as (_ & Hr & _); apply Hr.
Qed.

Lemma run_keeps_all (ops : list Op) (s : State) :
  view s ≠ Class ∨ Forall (fun o => is_materialization o = false) ops →
  keeps_from 0 s (run localeCompare svc ops s).
Proof.
  intros Hops. induction ops as [|o ops IH] using rev_ind; [reflexivity|].
  rewrite run_snoc.
  assert (IH' : keeps_from 0 s (run localeCompare svc ops s)).
  { apply IH. destruct Hops as [Hv|Hall]; [by left|right].
    by apply Forall_app in Hall as [Hall _]. }
  etrans; [exact IH'|].
  destruct (is_materialization o) eqn:Hm; [|by apply run_op_keeps].
  destruct Hops as [Hv|Hall].
  - destruct o as [fuel [e|]| | | | |]; try discriminate. simpl.
    rewrite getChildren_other_view; [reflexivity|].
    destruct IH' as (-> & _). done.
  - apply Forall_app in Hall as [_ Hall]. apply Forall_inv in Hall.
    simpl in Hall. congruence.
Qed.
End Sessions.

Section Linking.
Variable localeCompare : string -> string -> Z.
Variable svc : Service.

(** The top-level [getChildren()] changes the state only by the climb
    from the first root that is a class, in the class view. *)
Lemma getChildren_top_state (fuel : nat) (s : State) :
  (getChildren localeCompare svc fuel None s).2
  = match (if decide (view s = Class) then first_class_root s else None) with
    | Some root => (getClassViewRoot svc fuel root s).2
    | None => s
    end.
Proof.
  unfold getChildren, first_class_root. step_async.
  destruct (decide (view s = Class)); [|done].
  destruct (List.find _ (roots s)) as [root|]; [|done].
  change ((bind (getClassViewRoot svc fuel root) (fun top => ret [top]) s).2
          = (getClassViewRoot svc fuel root s).2).
  apply bind_ret_state.
Qed.

Lemma getClassViewRoot_self (fuel : nat) (r : TypeItemRef) (s : State) (t : TypeItem) :
  heap s !! r = Some t →
  ∃ t', heap (getClassViewRoot svc fuel r s).2 !! r = Some t' ∧
        item t' = item t ∧ children t' = children t.
Proof.
  intros Ht. destruct fuel as [|fuel]; [simpl; eauto|].
  destruct (getClassViewRoot_expands svc fuel r s t Ht) as (t' & Ht' & Hi & Hc & _).
  eauto.
Qed.

(** What a climb of at least one step does to the parent of the node
    it starts from. *)
Lemma getClassViewRoot_links (fuel : nat) (r : TypeItemRef) (s : State) (t : TypeItem) :
  heap s !! r = Some t →
  let s' := (getClassViewRoot svc (S fuel) r s).2 in
  match svc (length (calls s)) CmdSupertypes (item t) with
  | Fulfilled (Some supertypes) =>
      match List.find is_class supertypes with
      | Some y =>
          parent_of s' r = Some (Some (length (heap s))) ∧
          item_of s' (length (heap s)) = Some y ∧
          children_of s' (length (heap s)) = Some (Some [r])
      | None => parent_of s' r = Some (parent t)
      end
  | _ => parent_of s' r = Some (parent t)
  end.
Proof.
  intros Ht s'. subst s'. pose proof (lookup_lt_Some _ _ _ Ht) as Hlt.
  rewrite (getClassViewRoot_step svc fuel r s t Ht).
  assert (Hasked : ∀ c : Completion TypeItemRef,
    parent_of (c, asked s r t).2 r = Some (parent t)).
  { intros c. unfold parent_of, asked. simpl. by rewrite list_lookup_insert_eq. }
  destruct (svc _ _ _) as [[sups|]|why]; [|apply Hasked..].
  destruct (List.find is_class sups) as [y|]; [|apply Hasked].
  assert (Hnew : heap (linked s r t y) !! length (heap s)
                 = Some (with_children (Some [r]) (TypeItem_new y None))).
  { unfold linked. simpl. rewrite lookup_app_r by (rewrite length_insert; lia).
    by rewrite length_insert, Nat.sub_diag. }
  destruct (getClassViewRoot_frame svc fuel (length (heap s)) (linked s r t y))
    as (_ & _ & _ & _ & Hfr).
  destruct (getClassViewRoot_self fuel (length (heap s)) (linked s r t y) _ Hnew)
    as (t' & Ht' & Hi & Hc).
  split; [|split].
  - unfold parent_of. rewrite Hfr.
    + unfold linked. simpl. rewrite lookup_app_l by (by rewrite length_insert).
      by rewrite list_lookup_insert_eq.
    + unfold linked. simpl. rewrite length_app, length_insert. simpl. lia.
    + lia.
  - unfold item_of. rewrite Ht'. simpl. by rewrite Hi.
  - unfold children_of. rewrite Ht'. simpl. by rewrite Hc.
Qed.
End Linking.

Lemma TypesModel_new_roots (v : TypeHierarchyView) (pre : bool)
    (items : list TypeHierarchyItem) (x : nat) :
  x ∈ roots (TypesModel_new v pre items) →
  (x < length items)%nat ∧ parent_of (TypesModel_new v pre items) x = Some None.
Proof.
  simpl. rewrite elem_of_seq. intros [_ Hx]. split; [lia|].
  unfold parent_of. simpl. rewrite list_lookup_fmap.
  destruct (lookup_lt_is_Some_2 items x) as [i Hi]; [lia|]. by rewrite Hi.
Qed.

(** C3 (as amended): the nodes of the root sequence are built with
    [parent = undefined], and the nodes a resolution makes are built
    with the resolved node as parent.  No operation other than the
    top-level [getChildren] of the class view changes the parent of any
    node, so without it every root keeps [parent = undefined]; that
    operation changes the parent only of nodes the model was built with
    (and, while it runs, of the nodes it makes), so every other node
    keeps its parent across every operation of a session.  The
    top-level [getChildren] changes the state only by the climb from the
    first root that is a class.  A climb step from a node touches no
    other object that exists; when the supertypes hold a class, it makes
    the new node, built for the first such class with the node as only
    child, the parent of the node; when they hold none, are absent or
    the command fails, the node keeps the parent it has.  So in a session
    a root without parent either stays without parent across an
    operation, or the operation is the top-level [getChildren] of the
    class view, the root is the first class root, its supertypes hold a
    class, and its parent is now the new node. *)
Theorem parent_kept_except_by_class_view (localeCompare : string -> string -> Z)
    (svc : Service) (v : TypeHierarchyView) (pre : bool)
    (items : list TypeHierarchyItem) :
  let s0 := TypesModel_new v pre items in
  roots_parent_undefined s0 ∧
  (∀ ops o n t,
     let s := run localeCompare svc ops s0 in
     heap s !! n = Some t →
     ∃ t', heap (run_op localeCompare svc o s) !! n = Some t' ∧ item t' = item t ∧
       ((length items <= n)%nat ∨ is_materialization o = false ∨ v ≠ Class →
        parent t' = parent t)) ∧
  (∀ ops,
     v ≠ Class ∨ Forall (fun o => is_materialization o = false) ops →
     roots_parent_undefined (run localeCompare svc ops s0)) ∧
  (∀ s type t cs s',
     heap s !! type = Some t → children t = None →
     getTypeChildren localeCompare svc type s = (Returned cs, s') →
     ∀ c, c ∈ cs → parent_of s' c = Some (Some type)) ∧
  (∀ fuel s,
     (getChildren localeCompare svc fuel None s).2
     = match (if decide (view s = Class) then first_class_root s else None) with
       | Some root => (getClassViewRoot svc fuel root s).2
       | None => s
       end) ∧
  (∀ fuel r s t,
     heap s !! r = Some t →
     let s' := (getClassViewRoot svc (S fuel) r s).2 in
     (∀ n, (n < length (heap s))%nat → n ≠ r → heap s' !! n = heap s !! n) ∧
     match svc (length (calls s)) CmdSupertypes (item t) with
     | Fulfilled (Some supertypes) =>
         match List.find is_class supertypes with
         | Some y =>
             parent_of s' r = Some (Some (length (heap s))) ∧
             item_of s' (length (heap s)) = Some y ∧
             children_of s' (length (heap s)) = Some (Some [r])
         | None => parent_of s' r = Some (parent t)
         end
     | _ => parent_of s' r = Some (parent t)
     end) ∧
  (∀ ops o r,
     let s := run localeCompare svc ops s0 in
     let s' := run_op localeCompare svc o s in
     r ∈ roots s' → parent_of s r = Some None →
     parent_of s' r = Some None ∨
     ∃ fuel t supertypes y,
       o = OpGetChildren (S fuel) None ∧ v = Class ∧
       first_class_root s = Some r ∧ heap s !! r = Some t ∧
       svc (length (calls s)) CmdSupertypes (item t) = Fulfilled (Some supertypes) ∧
       List.find is_class supertypes = Some y ∧
       parent_of s' r = Some (Some (length (heap s))) ∧
       item_of s' (length (heap s)) = Some y).
Proof.
  intros s0.
  assert (Hbelow : ∀ x, x ∈ roots s0 → (x < length items)%nat).
  { intros x Hx. by apply TypesModel_new_roots in Hx as [? _]. }
  split; [|split; [|split; [|split; [|split; [|split]]]]].
  - intros x Hx. by apply TypesModel_new_roots in Hx as [_ ?].
  - intros ops o n t s Ht.
    pose proof (run_keeps_from localeCompare svc _ ops s0 Hbelow) as (Hv & Hr & _).
    fold s in Hv, Hr.
    assert (Hs : ∀ x, x ∈ roots s → (x < length items)%nat) by auto.
    destruct (run_op_keeps_from localeCompare svc _ o s Hs) as (_ & _ & Hh).
    destruct (Hh n t Ht) as (t' & Ht' & Hi & Hp).
    exists t'. split; [done|]. split; [done|].
    intros [Hn|[Hm|Hview]]; [by apply Hp| |].
    + destruct (run_op_keeps localeCompare svc o s Hm) as (_ & _ & Hh0).
      destruct (Hh0 n t Ht) as (t2 & Ht2 & _ & Hp2).
      assert (t2 = t') as -> by congruence. apply Hp2. lia.
    + destruct (is_materialization o) eqn:Hm.
      * destruct o as [fuel [e|]| | | | |]; try discriminate. simpl in Ht'.
        rewrite getChildren_other_view in Ht' by (by rewrite Hv).
        congruence.
      * destruct (run_op_keeps localeCompare svc o s Hm) as (_ & _ & Hh0).
        destruct (Hh0 n t Ht) as (t2 & Ht2 & _ & Hp2).
        assert (t2 = t') as -> by congruence. apply Hp2. lia.
  - intros ops Hops x Hx.
    destruct (run_keeps_all localeCompare svc ops s0 Hops) as (_ & Hr & Hh).
    apply Hr, TypesModel_new_roots in Hx as [_ Hpar].
    unfold parent_of in *.
    destruct (heap (TypesModel_new v pre items) !! x) as [t|] eqn:Ht; [|discriminate].
    destruct (Hh x t Ht) as (t' & -> & _ & Hp). simpl in *.
    rewrite Hp by lia. done.
  - intros s type t cs s' Ht Hc Hrun c Hin.
    rewrite (getTypeChildren_spec _ _ s type t Ht), Hc,
      (_resolveTypes_spec _ _ s type t Ht) in Hrun.
    pose proof (lookup_lt_Some _ _ _ Ht) as Hlt.
    destruct (reply_for svc s t) as [[types|]|why]; simpl in Hrun;
      [| |discriminate].
    + injection Hrun as <- <-. apply elem_of_seq in Hin.
      unfold parent_of. rewrite (update_lookup _ type _ t); last first.
      { simpl. by apply lookup_app_l_Some. }
      simpl. rewrite list_lookup_insert_ne by lia.
      rewrite lookup_app_r by lia. rewrite list_lookup_fmap.
      destruct (lookup_lt_is_Some_2 (Array_sort (compareTypes localeCompare) types)
                  (c - length (heap s))) as [i Hi]; [lia|].
      by rewrite Hi.
    + injection Hrun as <- <-. by apply elem_of_nil in Hin.
  - intros fuel s. apply getChildren_top_state.
  - intros fuel r s t Ht s'. split.
    + by destruct (getClassViewRoot_frame svc (S fuel) r s) as (_ & _ & _ & _ & Hfr).
    + by apply getClassViewRoot_links.
  - intros ops o r s s' Hr Hpar.
    pose proof (run_keeps_from localeCompare svc _ ops s0 Hbelow) as (Hv & _ & _).
    fold s in Hv. change (view s0) with v in Hv.
    assert (Hsome : ∃ t, heap s !! r = Some t ∧ parent t = None).
    { unfold parent_of in Hpar. destruct (heap s !! r) as [t|]; [|discriminate].
      injection Hpar as Hpar. eauto. }
    destruct Hsome as (t & Ht & Hnone).
    destruct (is_materialization o) eqn:Hm; last first.
    { left. destruct (run_op_keeps localeCompare svc o s Hm) as (_ & _ & Hh).
      destruct (Hh r t Ht) as (t' & Ht' & _ & Hp).
      unfold parent_of. fold s' in Ht'. rewrite Ht'. simpl.
      rewrite Hp by lia. by rewrite Hnone. }
    destruct o as [fuel [e|]| | | | |]; try discriminate.
    assert (Hs' : s' = match (if decide (view s = Class) then first_class_root s
                              else None) with
                       | Some root => (getClassViewRoot svc fuel root s).2
                       | None => s
                       end) by apply getChildren_top_state.
    destruct (decide (view s = Class)) as [Hclass|]; [|left; by rewrite Hs'].
    destruct (first_class_root s) as [root|] eqn:Hroot; [|left; by rewrite Hs'].
    destruct fuel as [|fuel]; [left; by rewrite Hs'|].
    destruct (decide (r = root)) as [->|Hne].
    + pose proof (getClassViewRoot_links svc fuel root s t Ht) as Hlink.
      rewrite <- Hs' in Hlink. simpl in Hlink.
      destruct (svc (length (calls s)) CmdSupertypes (item t)) as [[sups|]|why] eqn:Hreply;
        [|left; by rewrite Hlink, Hnone..].
      destruct (List.find is_class sups) as [y|] eqn:Hfind;
        [|left; by rewrite Hlink, Hnone].
      destruct Hlink as (Hp & Hi & _).
      right. exists fuel, t, sups, y.
      repeat split; try done. congruence.
    + left. destruct (getClassViewRoot_frame svc (S fuel) root s) as (_ & _ & _ & _ & Hfr).
      unfold parent_of. rewrite Hs', Hfr; [|by eapply lookup_lt_Some|done].
      by rewrite Ht; simpl; rewrite Hnone.
Qed.

(** A session in the subtype view: R0 is resolved, its child removed. *)
Lemma parent_kept_except_by_class_view_witness :
  let s0 := TypesModel_new Subtype false [R0] in
  roots_parent_undefined
    (run codeCompare one_child [OpGetTypeChildren 0%nat; OpRemove 1%nat] s0) ∧
  parent_of (getTypeChildren codeCompare one_child 0%nat s0).2 1%nat
  = Some (Some 0%nat) ∧
  parent_of (getClassViewRoot java 2 0%nat class_session).2 0%nat
  = Some (Some 1%nat) ∧
  parent_of (getClassViewRoot java 1 1%nat
               (getClassViewRoot java 2 0%nat class_session).2).2 1%nat
  = Some None.
Proof.
  intros s0.
  destruct (parent_kept_except_by_class_view codeCompare one_child Subtype false [R0])
    as (_ & _ & Hroots & Hnew & _).
  destruct (parent_kept_except_by_class_view codeCompare java Class false [X])
    as (_ & _ & _ & _ & _ & Hclimb & _).
  split; [|split; [|split]].
  - apply Hroots. left. discriminate.
  - apply (Hnew s0 0%nat (TypeItem_new R0 None) [1%nat] _ eq_refl eq_refl eq_refl).
    apply list_elem_of_singleton. reflexivity.
  - destruct (Hclimb 1%nat 0%nat class_session (TypeItem_new X None) eq_refl)
      as (_ & Hlink & _).
    exact Hlink.
  - exact (proj2 (Hclimb 0%nat 1%nat (getClassViewRoot java 2 0%nat class_session).2
                    {| item := ClassY; children := Some [0%nat];
                       parent := None; expand := Some true |} eq_refl)).
Defined.

(** C3 (as stated) fails: in the class view the top-level [getChildren]
    gives the root X, which was built with [parent = undefined] and is
    still in the root sequence, the new node of ClassY as parent. *)
Lemma class_view_sets_parent_of_root :
  let s1 := run_op codeCompare java (OpGetChildren 3 None) class_session in
  roots_parent_undefined class_session ∧
  roots s1 = [0%nat] ∧
  parent_of class_session 0%nat = Some None ∧
  parent_of s1 0%nat = Some (Some 1%nat) ∧
  ¬ roots_parent_undefined s1.
Proof.
  intros s1. split; [|split; [reflexivity|split; [reflexivity|split; [reflexivity|]]]].
  - intros x Hx. by apply TypesModel_new_roots in Hx as [_ ?].
  - intros H. specialize (H 0%nat). discriminate H. by left.
Qed.

(** ** The payload of the model's change event *)

(** C10: [remove] is the only operation that fires the model's change
    event, at most once, with the model as payload, and the provider's
    listener forwards it to the tree as [undefined]; so in a session
    every change event of the model carries the model and none reaches
    the listener's branch for a [TypeItem]. *)
Theorem model_change_payload_is_model (localeCompare : string -> string -> Z)
    (svc : Service) :
  (∀ o s,
     let s' := run_op localeCompare svc o s in
     modelEvents s' = modelEvents s ∨
     ∃ it, o = OpRemove it ∧
       modelEvents s' = (modelEvents s ++ [PayloadModel])%list ∧
       treeEvents s' = (treeEvents s ++ [modelListener PayloadModel])%list) ∧
  modelListener PayloadModel = None ∧
  (∀ ops v pre items,
     let s := run localeCompare svc ops (TypesModel_new v pre items) in
     Forall (fun e => e = PayloadModel ∧ modelListener e = None) (modelEvents s) ∧
     ∀ t, PayloadItem t ∉ modelEvents s).
Proof.
  assert (Hstep : ∀ o s,
     let s' := run_op localeCompare svc o s in
     modelEvents s' = modelEvents s ∨
     ∃ it, o = OpRemove it ∧
       modelEvents s' = (modelEvents s ++ [PayloadModel])%list ∧
       treeEvents s' = (treeEvents s ++ [modelListener PayloadModel])%list).
  { intros o s s'.
    assert (Hcase : (∃ it, o = OpRemove it) ∨ ∀ it, o ≠ OpRemove it).
    { destruct o; try (right; intros ?; discriminate). left. eauto. }
    destruct Hcase as [[it ->]|Hno].
    - subst s'. simpl. destruct (heap s !! it) as [t|] eqn:Ht.
      + rewrite (remove_spec s it t Ht).
        destruct (includes (roots s) it); [right; by exists it|].
        destruct (parent t) as [p|]; [|by left].
        destruct (heap s !! p) as [pt|]; [|by left].
        destruct (children pt); [right; by exists it | by left].
      + left. unfold remove. step_async. by rewrite Ht.
    - left. by apply run_op_quiet. }
  split; [exact Hstep|]. split; [done|].
  intros ops v pre items s.
  assert (Hall : Forall (fun e => e = PayloadModel ∧ modelListener e = None)
                   (modelEvents s)).
  { subst s. induction ops as [|o ops IH] using rev_ind; [by constructor|].
    rewrite run_snoc.
    destruct (Hstep o (run localeCompare svc ops (TypesModel_new v pre items)))
      as [->|(it & _ & -> & _)]; [done|].
    apply Forall_app. split; [done|]. by repeat constructor. }
  split; [done|].
  intros t Hin. rewrite Forall_forall in Hall.
  by destruct (Hall _ Hin) as [? _].
Qed.

(** ** The order of resolved children *)

Section SortFacts.
Context {A : Type} (cmp : A -> A -> Z).

Hypothesis cmp_flip : ∀ a b, Z.sgn (cmp b a) = - Z.sgn (cmp a b).
Hypothesis cmp_trans : ∀ a b c, cmp a b <= 0 → cmp b c <= 0 → cmp a c <= 0.

Lemma sort_insert_perm (x : A) (l : list A) : sort_insert cmp x l ≡ₚ x :: l.
Proof.
  induction l as [|y l IH]; simpl; [done|].
  destruct (cmp x y <=? 0); [done|]. rewrite IH. apply Permutation_swap.
Qed.

Lemma Array_sort_perm (l : list A) : Array_sort cmp l ≡ₚ l.
Proof.
  induction l as [|x l IH]; simpl; [done|].
  fold (Array_sort cmp l). by rewrite sort_insert_perm, IH.
Qed.

Lemma sort_insert_sorted (x : A) (l : list A) :
  StronglySorted (not_after cmp) l → StronglySorted (not_after cmp) (sort_insert cmp x l).
Proof.
  induction 1 as [|y l Hl IH Hy]; simpl; [by repeat constructor|].
  destruct (cmp x y <=? 0) eqn:E.
  - apply Z.leb_le in E. constructor; [by constructor|].
    constructor; [done|]. eapply Forall_impl; [exact Hy|].
    intros z Hz. by apply (cmp_trans x y z).
  - apply Z.leb_gt in E. constructor; [done|].
    rewrite sort_insert_perm. constructor; [|done].
    unfold not_after. pose proof (cmp_flip x y). lia.
Qed.

Lemma Array_sort_sorted (l : list A) : StronglySorted (not_after cmp) (Array_sort cmp l).
Proof.
  induction l as [|x l IH]; simpl; [constructor|].
  by apply sort_insert_sorted.
Qed.

Lemma StronglySorted_lookup (R : relation A) (l : list A) (i j : nat) (a b : A) :
  StronglySorted R l → (i < j)%nat → l !! i = Some a → l !! j = Some b → R a b.
Proof.
  intros Hl. revert i j. induction Hl as [|x l Hl IH Hx]; intros i j Hij Ha Hb.
  - by rewrite lookup_nil in Ha.
  - destruct j as [|j]; [lia|]. destruct i as [|i]; simpl in *.
    + injection Ha as <-. rewrite Forall_forall in Hx.
      apply Hx. by eapply list_elem_of_lookup_2.
    + apply (IH i j); [lia|done..].
Qed.

(** Stability: among the elements that compare equal to [x], insertion
    puts the new one first, so sorting keeps their order. *)
Lemma sort_insert_filter (x a : A) (l : list A) :
  List.filter (fun y => cmp x y =? 0) (sort_insert cmp a l)
  = List.filter (fun y => cmp x y =? 0) (a :: l).
Proof.
  induction l as [|y l IH]; [done|].
  simpl sort_insert. destruct (cmp a y <=? 0) eqn:E; [done|].
  apply Z.leb_gt in E.
  simpl. rewrite IH. simpl.
  destruct (cmp x a =? 0) eqn:Ea; destruct (cmp x y =? 0) eqn:Ey; try done.
  apply Z.eqb_eq in Ea, Ey. exfalso.
  assert (cmp a x <= 0) by (pose proof (cmp_flip x a); lia).
  assert (cmp a y <= 0) by (apply (cmp_trans a x y); lia).
  lia.
Qed.

Lemma Array_sort_stable (x : A) (l : list A) :
  List.filter (fun y => cmp x y =? 0) (Array_sort cmp l)
  = List.filter (fun y => cmp x y =? 0) l.
Proof.
  induction l as [|a l IH]; [done|].
  simpl Array_sort. fold (Array_sort cmp l). rewrite sort_insert_filter.
  simpl. by rewrite IH.
Qed.
End SortFacts.

Lemma kind_toString_inj (k1 k2 : SymbolKind) :
  kind_toString k1 = kind_toString k2 → k1 = k2.
Proof.
  intros H. destruct k1, k2; try reflexivity; vm_compute in H; discriminate H.
Qed.

Section Ordering.
Variable localeCompare : string -> string -> Z.
Hypothesis Hcollation : collation localeCompare.

Lemma kinds_apart (k1 k2 : SymbolKind) :
  k1 ≠ k2 →
  localeCompare (kind_toString k1) (kind_toString k2) ≠ 0.
Proof.
  intros Hne Hzero.
  pose proof (collation_flip _ Hcollation (kind_toString k1) (kind_toString k2)) as Hflip.
  pose proof (proj2 (collation_kinds _ Hcollation k1 k2)) as H12.
  pose proof (proj2 (collation_kinds _ Hcollation k2 k1)) as H21.
  unfold lex_lt in *.
  rewrite (String.compare_antisym (kind_toString k2) (kind_toString k1)) in H21.
  destruct (String.compare (kind_toString k1) (kind_toString k2)) eqn:E; simpl in H21.
  - apply Hne, kind_toString_inj. by apply String.compare_eq_iff.
  - specialize (H12 eq_refl). lia.
  - specialize (H21 eq_refl). lia.
Qed.

Lemma compareTypes_same_kind (a b : TypeHierarchyItem) :
  kind a = kind b → compareTypes localeCompare a b = localeCompare (name a) (name b).
Proof. intros Hk. unfold compareTypes. rewrite Hk. by destruct (decide _). Qed.

Lemma compareTypes_other_kind (a b : TypeHierarchyItem) :
  kind a ≠ kind b →
  compareTypes localeCompare a b
  = localeCompare (kind_toString (kind b)) (kind_toString (kind a)).
Proof.
  intros Hk. unfold compareTypes.
  destruct (decide _) as [Heq|]; [|done]. by apply kind_toString_inj in Heq.
Qed.

Lemma compareTypes_flip (a b : TypeHierarchyItem) :
  Z.sgn (compareTypes localeCompare b a) = - Z.sgn (compareTypes localeCompare a b).
Proof.
  destruct (decide (kind a = kind b)) as [Hk|Hk].
  - rewrite !compareTypes_same_kind by done. apply Hcollation.
  - rewrite !compareTypes_other_kind by done. apply Hcollation.
Qed.

Lemma compareTypes_trans (a b c : TypeHierarchyItem) :
  compareTypes localeCompare a b <= 0 → compareTypes localeCompare b c <= 0 →
  compareTypes localeCompare a c <= 0.
Proof.
  destruct (decide (kind a = kind b)) as [Hab|Hab];
    destruct (decide (kind b = kind c)) as [Hbc|Hbc].
  - rewrite !compareTypes_same_kind by congruence. apply Hcollation.
  - rewrite (compareTypes_other_kind b c), (compareTypes_other_kind a c) by congruence.
    rewrite Hab. auto.
  - rewrite (compareTypes_other_kind a b), (compareTypes_other_kind a c) by congruence.
    rewrite Hbc. auto.
  - rewrite (compareTypes_other_kind a b), (compareTypes_other_kind b c) by done.
    intros H1 H2. destruct (decide (kind a = kind c)) as [Hac|Hac].
    + exfalso. rewrite <- Hac in H2.
      pose proof (kinds_apart (kind a) (kind b) Hab).
      pose proof (collation_flip _ Hcollation (kind_toString (kind a))
                    (kind_toString (kind b))).
      lia.
    + rewrite compareTypes_other_kind by done.
      by apply (collation_trans _ Hcollation _ (kind_toString (kind b))).
Qed.

Lemma compareTypes_same_key (a b : TypeHierarchyItem) :
  (compareTypes localeCompare a b =? 0) = same_key localeCompare a b.
Proof.
  unfold same_key. destruct (decide (kind a = kind b)) as [Hk|Hk].
  - rewrite compareTypes_same_kind by done. by rewrite bool_decide_eq_true_2.
  - rewrite compareTypes_other_kind, bool_decide_eq_false_2 by done. simpl.
    apply Z.eqb_neq, kinds_apart. congruence.
Qed.

(** What the sort of [_resolveTypes] does to the fetched items. *)
Lemma sorted_types (types : list TypeHierarchyItem) :
  let sorted := Array_sort (compareTypes localeCompare) types in
  sorted ≡ₚ types ∧
  (∀ i j a b, (i < j)%nat → sorted !! i = Some a → sorted !! j = Some b →
     (kind a ≠ kind b →
      lex_lt (kind_toString (kind b)) (kind_toString (kind a))) ∧
     (kind a = kind b → localeCompare (name a) (name b) <= 0)) ∧
  (∀ x, List.filter (same_key localeCompare x) sorted
        = List.filter (same_key localeCompare x) types).
Proof.
  intros sorted. split; [apply Array_sort_perm|]. split.
  - intros i j a b Hij Ha Hb.
    pose proof (StronglySorted_lookup _ sorted i j a b
      (Array_sort_sorted _ compareTypes_flip compareTypes_trans types) Hij Ha Hb) as Hab.
    unfold not_after in Hab. split; intros Hk.
    + rewrite compareTypes_other_kind in Hab by done.
      apply (collation_kinds _ Hcollation).
      pose proof (kinds_apart (kind b) (kind a) (not_eq_sym Hk)). lia.
    + by rewrite compareTypes_same_kind in Hab.
  - intros x.
    rewrite <- !(List.filter_ext _ _ (compareTypes_same_key x)).
    apply Array_sort_stable; [apply compareTypes_flip | apply compareTypes_trans].
Qed.
End Ordering.

Lemma codeCompare_collation : collation codeCompare.
Proof.
  split.
  - intros a b. unfold codeCompare. rewrite (String.compare_antisym b a).
    by destruct (String.compare a b).
  - intros a b c. unfold codeCompare. intros Hab Hbc.
    assert (String.le a b) as H1.
    { unfold String.le, String.leb. by destruct (String.compare a b). }
    assert (String.le b c) as H2.
    { unfold String.le, String.leb. by destruct (String.compare b c). }
    assert (String.le a c) as H3 by (by etrans).
    unfold String.le, String.leb in H3. by destruct (String.compare a c).
  - intros k1 k2. unfold codeCompare, lex_lt.
    by destruct (String.compare (kind_toString k1) (kind_toString k2)).
Qed.

(** C6: when the command gives a list of items, the children
    [getTypeChildren] returns carry a permutation of it in which, for
    two items at positions [i] and [j]: if the kinds differ, [i < j]
    exactly when the string of the first kind is after the string of
    the second in the order by character code; if the kinds are equal,
    [i < j] implies that the first name is not after the second in the
    collation, and a name strictly before puts its item first; and the
    items with equal kind and names the collation does not tell apart
    are in the order in which the command gave them. *)
Theorem resolved_children_order (localeCompare : string -> string -> Z)
    (svc : Service) (s : State) (type : TypeItemRef) (t : TypeItem)
    (types : list TypeHierarchyItem) :
  collation localeCompare →
  heap s !! type = Some t →
  children t = None →
  reply_for svc s t = Fulfilled (Some types) →
  ∃ cs s' sorted,
    getTypeChildren localeCompare svc type s = (Returned cs, s') ∧
    Forall2 (fun c i => item_of s' c = Some i) cs sorted ∧
    sorted ≡ₚ types ∧
    (∀ i j a b, sorted !! i = Some a → sorted !! j = Some b →
       (kind a ≠ kind b →
        ((i < j)%nat ↔ lex_lt (kind_toString (kind b)) (kind_toString (kind a)))) ∧
       (kind a = kind b →
        ((i < j)%nat → localeCompare (name a) (name b) <= 0) ∧
        (localeCompare (name a) (name b) < 0 → (i < j)%nat))) ∧
    (∀ x, List.filter (same_key localeCompare x) sorted
          = List.filter (same_key localeCompare x) types).
Proof.
  intros Hcoll Ht Hc Hreply.
  pose proof (lookup_lt_Some _ _ _ Ht) as Hlt.
  destruct (sorted_types localeCompare Hcoll types) as (Hperm & Hord & Hstable).
  set (sorted := Array_sort (compareTypes localeCompare) types) in *.
  eexists _, _, sorted. split; [|split; [|split; [done|split; [|done]]]].
  - rewrite (getTypeChildren_spec _ _ s type t Ht), Hc,
      (_resolveTypes_spec _ _ s type t Ht), Hreply. reflexivity.
  - apply Forall2_same_length_lookup_2; [by rewrite length_seq|].
    intros k c i Hk Hi. apply lookup_seq in Hk as [-> Hk].
    unfold item_of. rewrite (update_lookup _ type _ t); last first.
    { simpl. by apply lookup_app_l_Some. }
    simpl. rewrite list_lookup_insert_ne by lia.
    rewrite lookup_app_r by lia.
    replace (length (heap s) + k - length (heap s))%nat with k by lia.
    rewrite list_lookup_fmap. fold sorted. by rewrite Hi.
  - intros i j a b Ha Hb.
    assert (Hsame : i = j → a = b) by (intros ->; congruence).
    split; intros Hk.
    + split; [intros Hij; by apply (Hord i j a b Hij Ha Hb)|].
      intros Hlex. destruct (lt_eq_lt_dec i j) as [[Hij|Heq]|Hji]; [done| |].
      * apply Hsame in Heq as ->. by destruct Hk.
      * destruct (Hord j i b a Hji Hb Ha) as [Hlex' _].
        specialize (Hlex' (not_eq_sym Hk)). unfold lex_lt in *.
        rewrite String.compare_antisym, Hlex' in Hlex. discriminate.
    + split; [intros Hij; by apply (Hord i j a b Hij Ha Hb)|].
      intros Hname.
      pose proof (collation_flip _ Hcoll (name a) (name b)) as Hflip.
      destruct (lt_eq_lt_dec i j) as [[Hij|Heq]|Hji]; [done| |].
      * apply Hsame in Heq as ->. lia.
      * destruct (Hord j i b a Hji Hb Ha) as [_ Hname'].
        specialize (Hname' (eq_sym Hk)). lia.
Qed.

(** Class is kind 4 and Interface kind 10: the string of 4 is after the
    string of 10, so the classes come first, by name. *)
Lemma resolved_children_order_witness :
  Array_sort (compareTypes codeCompare) [R1; InterfaceI; R0] = [R0; R1; InterfaceI] ∧
  ∃ cs s' sorted,
    getTypeChildren codeCompare mixed 0%nat three_roots = (Returned cs, s') ∧
    Forall2 (fun c i => item_of s' c = Some i) cs sorted ∧
    sorted ≡ₚ [R1; InterfaceI; R0].
Proof.
  split; [reflexivity|].
  destruct (resolved_children_order codeCompare mixed three_roots 0%nat
              (TypeItem_new R0 None) [R1; InterfaceI; R0]
              codeCompare_collation eq_refl eq_refl eq_refl)
    as (cs & s' & sorted & Hrun & Hitems & Hperm & _).
  exists cs, s', sorted. auto.
Defined.

(** * Further properties of the model and of the commands *)

(** ** Navigation *)

(** X1: [nearest] gives no node only when there is no root; otherwise
    it gives the first root whose item uri is the text of the given
    uri, and the first root of all when no root has that uri. *)
Theorem nearest_first_match_or_first_root (s : State) (u : Uri) :
  (nearest s u = None ↔ roots s = []) ∧
  (∀ r, nearest s u = Some r →
     (∃ before after, roots s = (before ++ (r :: after))%list ∧
        Forall (fun x => item_uri s x ≠ Some (Uri_toString u)) before ∧
        item_uri s r = Some (Uri_toString u)) ∨
     (roots s !! 0%nat = Some r ∧
      Forall (fun x => item_uri s x ≠ Some (Uri_toString u)) (roots s))).
Proof.
  unfold nearest.
  destruct (List.find _ (roots s)) as [r0|] eqn:Hfind.
  - split.
    + split; [discriminate|]. intros Hnil. by rewrite Hnil in Hfind.
    + intros r [= <-]. left.
      destruct (find_first _ _ _ Hfind) as (before & after & Hroots & Hbefore & Hr).
      exists before, after. split; [done|]. split.
      * eapply Forall_impl; [exact Hbefore|]. intros x Hx.
        by apply bool_decide_eq_false_1 in Hx.
      * by apply bool_decide_eq_true_1 in Hr.
  - split.
    + destruct (roots s); simpl; [done|]. split; discriminate.
    + intros r Hr. right. split; [done|].
      apply Forall_forall. intros x Hx.
      apply list_elem_of_In in Hx.
      pose proof (find_none _ _ Hfind x Hx) as Hno. simpl in Hno.
      by apply bool_decide_eq_false_1 in Hno.
Qed.

(** The uri of R1 finds R1; a uri no root has finds the first root. *)
Lemma nearest_first_match_or_first_root_witness :
  nearest three_roots {| uri_object := HostUri 0; uri_text := "file:///r1.ts" |}
  = Some 1%nat ∧
  nearest three_roots {| uri_object := HostUri 0; uri_text := "file:///other.ts" |}
  = Some 0%nat ∧
  (item_uri three_roots 1%nat = Some "file:///r1.ts" ∨
   roots three_roots !! 0%nat = Some 1%nat).
Proof.
  split; [reflexivity|]. split; [reflexivity|].
  destruct (proj2 (nearest_first_match_or_first_root three_roots
                     {| uri_object := HostUri 0; uri_text := "file:///r1.ts" |})
              1%nat eq_refl) as [(_ & _ & _ & _ & Huri)|[Hfirst _]].
  - left. exact Huri.
  - right. exact Hfirst.
Defined.

Lemma tail_last {A} (l : list A) : tail l = last l.
Proof.
  unfold tail, at_index. rewrite last_lookup.
  destruct l as [|x l]; [done|].
  destruct (Z.of_nat (length (x :: l)) - 1 <? 0) eqn:E.
  - apply Z.ltb_lt in E. simpl in E. lia.
  - f_equal. simpl. lia.
Qed.

(** X2: a node with at least one resolved child sends [next] to its
    first child and [previous] to its last child, wherever the node is
    among its siblings. *)
Theorem next_previous_descend (s : State) (from : TypeItemRef) (t : TypeItem)
    (c : TypeItemRef) (cs : list TypeItemRef) :
  heap s !! from = Some t →
  children t = Some (c :: cs) →
  next s from = c ∧ last (c :: cs) = Some (previous s from).
Proof.
  intros Ht Hc. unfold next, previous, _move. rewrite Ht, Hc.
  split; [done|]. rewrite tail_last.
  destruct (last (c :: cs)) eqn:Hl; [done|].
  by apply last_None in Hl.
Qed.

Lemma next_previous_descend_witness :
  next child_unresolved 0%nat = 1%nat ∧
  last [1%nat] = Some (previous child_unresolved 0%nat).
Proof.
  apply (next_previous_descend child_unresolved 0%nat
           (with_children (Some [1%nat]) (TypeItem_new R0 None)) 1%nat []);
    reflexivity.
Defined.

Lemma indexOf_NoDup {A} `{EqDecision A} (l : list A) (i : nat) (e : A) :
  NoDup l → l !! i = Some e → indexOf l e = Z.of_nat i.
Proof.
  intros Hnd. revert i. induction Hnd as [|x l Hx Hnd IH]; intros i Hi.
  - by rewrite lookup_nil in Hi.
  - simpl. destruct i as [|i]; simpl in Hi.
    + injection Hi as ->. by rewrite decide_True.
    + rewrite decide_False; last first.
      { intros ->. apply Hx. by eapply list_elem_of_lookup_2. }
      rewrite (IH i Hi).
      destruct (Z.of_nat i <? 0) eqn:E; [apply Z.ltb_lt in E; lia|]. lia.
Qed.

Lemma childless_children (s : State) (r : TypeItemRef) :
  childless s r →
  ∃ t, heap s !! r = Some t ∧ (children t = None ∨ children t = Some []).
Proof.
  unfold childless, children_of. destruct (heap s !! r) as [t|]; simpl.
  - intros [[=]|[=]]; eauto.
  - intros [[=]|[=]].
Qed.

(** X3: two neighbours in a sibling array that holds no node twice,
    neither with a resolved child: [next] takes the first to the
    second and [previous] takes the second back to the first. *)
Theorem next_previous_inverse (s : State) (from n : TypeItemRef)
    (arr : list TypeItemRef) (i : nat) :
  childless s from → childless s n →
  sibling_array s from = Some arr → sibling_array s n = Some arr →
  NoDup arr →
  arr !! i = Some from → arr !! S i = Some n →
  next s from = n ∧ previous s n = from ∧
  previous s (next s from) = from ∧ next s (previous s n) = n.
Proof.
  intros (tf & Htf & Hcf)%childless_children (tn & Htn & Hcn)%childless_children
    Hsf Hsn Hnd Hi Hsi.
  assert (Hne : arr ≠ []) by (intros ->; by rewrite lookup_nil in Hi).
  assert (Hnext : next s from = n).
  { unfold next. rewrite (_move_sibling s from tf arr true Htf Hcf Hsf Hne).
    rewrite (indexOf_NoDup arr i from Hnd Hi). unfold at_index.
    destruct (Z.of_nat i + 1 <? 0) eqn:E; [apply Z.ltb_lt in E; lia|].
    replace (Z.to_nat (Z.of_nat i + 1)) with (S i) by lia. by rewrite Hsi. }
  assert (Hprev : previous s n = from).
  { unfold previous. rewrite (_move_sibling s n tn arr false Htn Hcn Hsn Hne).
    rewrite (indexOf_NoDup arr (S i) n Hnd Hsi). unfold at_index.
    destruct (Z.of_nat (S i) + -1 <? 0) eqn:E; [apply Z.ltb_lt in E; lia|].
    replace (Z.to_nat (Z.of_nat (S i) + -1)) with i by lia. by rewrite Hi. }
  rewrite Hnext, Hprev. done.
Qed.

Lemma next_previous_inverse_witness :
  next three_roots 0%nat = 1%nat ∧ previous three_roots 1%nat = 0%nat ∧
  previous three_roots (next three_roots 0%nat) = 0%nat ∧
  next three_roots (previous three_roots 1%nat) = 1%nat.
Proof.
  apply (next_previous_inverse three_roots 0%nat 1%nat [0; 1; 2]%nat 0%nat);
    try reflexivity; try (left; reflexivity).
  compute_done.
Defined.

(** X4: at the edges [_move] finds no neighbour.  A node without
    resolved child for which no sibling array is found, or an empty one,
    stays where it is under [next] and [previous]; a node that its
    sibling array no longer holds goes to the first sibling under [next]
    and stays under [previous]. *)
Theorem next_previous_edges (s : State) (from : TypeItemRef) :
  childless s from →
  (sibling_array s from = None ∨ sibling_array s from = Some [] →
   next s from = from ∧ previous s from = from) ∧
  (∀ a rest, sibling_array s from = Some (a :: rest) → from ∉ a :: rest →
   next s from = a ∧ previous s from = from).
Proof.
  intros (t & Ht & Hc)%childless_children. split.
  - intros Harr. unfold next, previous, _move, sibling_array in *.
    rewrite Ht in *. simpl in Harr.
    destruct Hc as [-> | ->]; destruct Harr as [-> | ->]; done.
  - intros a rest Harr Hnot.
    assert (Hne : a :: rest ≠ []) by done.
    unfold next, previous.
    rewrite (_move_sibling s from t _ true Ht Hc Harr Hne),
      (_move_sibling s from t _ false Ht Hc Harr Hne).
    apply indexOf_absent in Hnot.
    pose proof (indexOf_bounds (a :: rest) from).
    replace (indexOf (a :: rest) from) with (-1) by lia.
    done.
Qed.

(** A child whose siblings are all gone stays; a removed child with
    siblings left goes to the first of them under [next]. *)
Lemma next_previous_edges_witness :
  (next removed_once 1%nat = 1%nat ∧ previous removed_once 1%nat = 1%nat) ∧
  (next stale_child 1%nat = 2%nat ∧ previous stale_child 1%nat = 1%nat).
Proof.
  split.
  - apply (next_previous_edges removed_once 1%nat); [by left|].
    right. reflexivity.
  - apply (proj2 (next_previous_edges stale_child 1%nat (or_introl eq_refl))
             2%nat [3%nat]); [reflexivity | compute_done].
Defined.

(** ** The tree data provider *)

Section Provider.
Variable localeCompare : string -> string -> Z.
Variable svc : Service.

Lemma getChildren_of_spec (fuel : nat) (e : TypeItemRef) (s : State) :
  getChildren localeCompare svc fuel (Some e) s
  = match getTypeChildren localeCompare svc e s with
    | (Returned cs, s1) =>
        (Returned cs,
         if bool_decide (length cs = 0%nat)
         then set_treeEvents (treeEvents s1 ++ [Some e]) s1 else s1)
    | (Threw why, s1) => (Threw why, s1)
    | (Pending, s1) => (Pending, s1)
    end.
Proof.
  unfold getChildren. step_async.
  destruct (getTypeChildren localeCompare svc e s) as [[cs| |] s1]; [|done..].
  by destruct (bool_decide (length cs = 0%nat)).
Qed.

Lemma getTreeItem_spec (fuel : nat) (e : TypeItemRef) (s : State) (t : TypeItem) :
  heap s !! e = Some t →
  getTreeItem localeCompare svc fuel e s
  = let s0 := set_uris (S (uris s)) s in
    let built := TreeItem_of t (next_uri s t) in
    if (bool_decide (view s = Class) && bool_decide (expand t = Some true))
       || includes (roots s) e
    then (Returned (built Expanded), s0)
    else if bool_decide (children t = Some [])
    then (Returned (built None_), s0)
    else if negb (prefetch s)
    then (Returned (built Collapsed), s0)
    else
      match getChildren localeCompare svc fuel (Some e) s0 with
      | (Returned c, s1) =>
          (Returned (built (if bool_decide (length c = 0%nat) then None_ else Collapsed)),
           update e (with_children (Some c)) s1)
      | (Threw why, s1) => (Threw why, s1)
      | (Pending, s1) => (Pending, s1)
      end.
Proof.
  intros Ht. unfold getTreeItem. step_async. rewrite Ht. simpl.
  destruct (_ || _); [done|].
  destruct (bool_decide (children t = Some [])); [done|].
  destruct (negb (prefetch s)); [done|].
  by destruct (getChildren localeCompare svc fuel (Some e) _) as [[c| |] s1].
Qed.

(** What a resolution that returns leaves in the node. *)
Lemma getTypeChildren_cached (e : TypeItemRef) (s s1 : State) (cs : list TypeItemRef) :
  getTypeChildren localeCompare svc e s = (Returned cs, s1) →
  ∃ t1, heap s1 !! e = Some t1 ∧ children t1 = Some cs.
Proof.
  intros Hrun. destruct (heap s !! e) as [t|] eqn:Ht.
  - rewrite (getTypeChildren_spec _ _ s e t Ht) in Hrun.
    destruct (children t) as [c0|] eqn:Hc.
    + injection Hrun as <- <-. eauto.
    + destruct (_resolveTypes localeCompare svc e s) as [[c1| |] s2] eqn:Hres;
        try discriminate.
      injection Hrun as <- <-.
      destruct (_resolveTypes_heap _ _ s s2 e t _ Ht Hres) as (fresh & Hheap & _).
      assert (Ht2 : heap s2 !! e = Some t) by (rewrite Hheap; by apply lookup_app_l_Some).
      rewrite (update_lookup s2 e _ t Ht2). simpl.
      rewrite list_lookup_insert_eq by (by eapply lookup_lt_Some). eauto.
  - revert Hrun. unfold getTypeChildren. step_async. by rewrite Ht.
Qed.
End Provider.

(** X5: [getChildren(element)] returns what [getTypeChildren] returns
    and passes on its rejection; when the result is empty it fires the
    provider's event for that node, and does so on every call: for a
    node whose cached children are empty each call sends no command and
    adds one more event. *)
Theorem getChildren_signals_childless (localeCompare : string -> string -> Z)
    (svc : Service) (fuel : nat) (e : TypeItemRef) (s : State) :
  (∀ cs s1, getTypeChildren localeCompare svc e s = (Returned cs, s1) →
     ∃ s2, getChildren localeCompare svc fuel (Some e) s = (Returned cs, s2) ∧
       treeEvents s2 = (treeEvents s1 ++ if cs is [] then [Some e] else [])%list ∧
       heap s2 = heap s1 ∧ roots s2 = roots s1 ∧ calls s2 = calls s1 ∧
       modelEvents s2 = modelEvents s1) ∧
  (∀ why s1, getTypeChildren localeCompare svc e s = (Threw why, s1) →
     getChildren localeCompare svc fuel (Some e) s = (Threw why, s1)) ∧
  (∀ t, heap s !! e = Some t → children t = Some [] →
     let once := (getChildren localeCompare svc fuel (Some e) s).2 in
     let twice := (getChildren localeCompare svc fuel (Some e) once).2 in
     treeEvents once = (treeEvents s ++ [Some e])%list ∧
     treeEvents twice = (treeEvents s ++ [Some e; Some e])%list ∧
     calls twice = calls s).
Proof.
  split; [|split].
  - intros cs s1 Hrun. rewrite getChildren_of_spec, Hrun.
    eexists. split; [reflexivity|].
    destruct cs as [|c cs]; simpl; [done|]. by rewrite app_nil_r.
  - intros why s1 Hrun. by rewrite getChildren_of_spec, Hrun.
  - intros t Ht Hc once twice.
    assert (Honce : once = set_treeEvents (treeEvents s ++ [Some e]) s).
    { unfold once. rewrite getChildren_of_spec,
        (getTypeChildren_spec _ _ s e t Ht), Hc. done. }
    assert (Htwice : twice = set_treeEvents (treeEvents once ++ [Some e]) once).
    { unfold twice. rewrite getChildren_of_spec,
        (getTypeChildren_spec _ _ once e t), Hc; [done|]. by rewrite Honce. }
    rewrite Htwice, Honce. simpl. by rewrite <- app_assoc.
Qed.

Lemma getChildren_signals_childless_witness :
  let once := (getChildren codeCompare one_child 0 (Some 1%nat) child_resolved_empty).2 in
  let twice := (getChildren codeCompare one_child 0 (Some 1%nat) once).2 in
  treeEvents twice = (treeEvents child_resolved_empty ++ [Some 1%nat; Some 1%nat])%list ∧
  calls twice = calls child_resolved_empty.
Proof.
  destruct (getChildren_signals_childless codeCompare one_child 0 1%nat
              child_resolved_empty) as (_ & _ & Hcached).
  destruct (Hcached (with_children (Some []) (TypeItem_new R1 (Some 0%nat)))
              eq_refl eq_refl) as (_ & Htwice & Hcalls).
  split; assumption.
Defined.

(** X6: every root, in any view, and in the class view every node
    flagged [expand], is shown expanded, whether or not its children are
    resolved and whatever the prefetch setting; no command is sent and
    no node changes. *)
Theorem getTreeItem_expanded (localeCompare : string -> string -> Z)
    (svc : Service) (fuel : nat) (s : State) (e : TypeItemRef) (t : TypeItem) :
  heap s !! e = Some t →
  e ∈ roots s ∨ (view s = Class ∧ expand t = Some true) →
  getTreeItem localeCompare svc fuel e s
  = (Returned (TreeItem_of t (next_uri s t) Expanded), set_uris (S (uris s)) s).
Proof.
  intros Ht Hcase. rewrite (getTreeItem_spec _ _ fuel e s t Ht). simpl.
  destruct Hcase as [Hroot|[Hv He]].
  - unfold includes. rewrite (bool_decide_eq_true_2 _ Hroot). by rewrite orb_true_r.
  - by rewrite (bool_decide_eq_true_2 _ Hv), (bool_decide_eq_true_2 _ He).
Qed.

Lemma getTreeItem_expanded_witness :
  getTreeItem codeCompare failing 0 0%nat (set_roots [0%nat] (TypesModel_new Subtype true [R0]))
  = (Returned (TreeItem_of (TypeItem_new R0 None)
                 {| uri_object := ParsedUri 0; uri_text := "file:///r0.ts" |} Expanded),
     set_uris 1 (TypesModel_new Subtype true [R0])).
Proof.
  apply (getTreeItem_expanded codeCompare failing 0
           (TypesModel_new Subtype true [R0]) 0%nat (TypeItem_new R0 None) eq_refl).
  left. compute_done.
Defined.

Arguments update : simpl never.
Arguments Array_sort : simpl never.

Lemma update_length (s : State) (e : TypeItemRef) (f : TypeItem -> TypeItem) :
  length (heap (update e f s)) = length (heap s).
Proof.
  unfold update. destruct (heap s !! e); simpl; [|done]. by rewrite length_insert.
Qed.

Lemma update_roots (s : State) (e : TypeItemRef) (f : TypeItem -> TypeItem) :
  roots (update e f s) = roots s.
Proof. unfold update. by destruct (heap s !! e). Qed.

Lemma update_view (s : State) (e : TypeItemRef) (f : TypeItem -> TypeItem) :
  view (update e f s) = view s.
Proof. unfold update. by destruct (heap s !! e). Qed.

Lemma update_calls (s : State) (e : TypeItemRef) (f : TypeItem -> TypeItem) :
  calls (update e f s) = calls s.
Proof. unfold update. by destruct (heap s !! e). Qed.

Lemma update_treeEvents (s : State) (e : TypeItemRef) (f : TypeItem -> TypeItem) :
  treeEvents (update e f s) = treeEvents s.
Proof. unfold update. by destruct (heap s !! e). Qed.

Lemma children_of_update (s : State) (e : TypeItemRef)
    (c : option (list TypeItemRef)) :
  (e < length (heap s))%nat →
  children_of (update e (with_children c) s) e = Some c.
Proof.
  intros Hlt. destruct (lookup_lt_is_Some_2 _ _ Hlt) as [t Ht].
  unfold children_of. rewrite (update_lookup s e _ t Ht). simpl.
  by rewrite list_lookup_insert_eq.
Qed.

(** X7: with prefetch on, the tree item of an unresolved node that is
    neither a root nor shown expanded resolves the node first.  An
    absent or empty answer caches [children = []], shows a leaf and
    fires the provider's event for the node; a non-empty answer caches
    as many children as it has items and shows the node collapsed; a
    rejected command rejects [getTreeItem] and leaves the node
    unresolved, without an event.  In each of the three cases exactly
    one command was sent, the one of the view for the node's item. *)
Theorem getTreeItem_prefetch (localeCompare : string -> string -> Z)
    (svc : Service) (fuel : nat) (s : State) (e : TypeItemRef) (t : TypeItem) :
  heap s !! e = Some t →
  e ∉ roots s →
  ¬ (view s = Class ∧ expand t = Some true) →
  children t = None →
  prefetch s = true →
  match reply_for svc s t with
  | Fulfilled None | Fulfilled (Some []) =>
      ∃ s1, getTreeItem localeCompare svc fuel e s
              = (Returned (TreeItem_of t (next_uri s t) None_), s1) ∧
            children_of s1 e = Some (Some []) ∧
            treeEvents s1 = (treeEvents s ++ [Some e])%list ∧
            calls s1 = (calls s ++ [(view_command (view s), item t)])%list
  | Fulfilled (Some (i :: types)) =>
      ∃ s1 cs, getTreeItem localeCompare svc fuel e s
                 = (Returned (TreeItem_of t (next_uri s t) Collapsed), s1) ∧
               children_of s1 e = Some (Some cs) ∧
               length cs = S (length types) ∧
               treeEvents s1 = treeEvents s ∧
               calls s1 = (calls s ++ [(view_command (view s), item t)])%list
  | Failed why =>
      ∃ s1, getTreeItem localeCompare svc fuel e s = (Threw why, s1) ∧
            children_of s1 e = Some None ∧
            treeEvents s1 = treeEvents s ∧
            calls s1 = (calls s ++ [(view_command (view s), item t)])%list
  end.
Proof.
  intros Ht Hroot Hexp Hc Hpre.
  pose proof (lookup_lt_Some _ _ _ Ht) as Hlt.
  rewrite (getTreeItem_spec _ _ fuel e s t Ht). simpl.
  assert (Hcond : (bool_decide (view s = Class) && bool_decide (expand t = Some true))
                  || includes (roots s) e = false).
  { unfold includes. rewrite (bool_decide_eq_false_2 _ Hroot), orb_false_r.
    apply andb_false_iff.
    destruct (decide (view s = Class)) as [Hv|Hv].
    - right. apply bool_decide_eq_false_2. intros He. by apply Hexp.
    - left. by apply bool_decide_eq_false_2. }
  rewrite Hcond, Hc, Hpre. simpl.
  set (s0 := set_uris (S (uris s)) s).
  assert (Ht0 : heap s0 !! e = Some t) by done.
  rewrite getChildren_of_spec, (getTypeChildren_spec _ _ s0 e t Ht0), Hc,
    (_resolveTypes_spec _ _ s0 e t Ht0).
  change (reply_for svc s0 t) with (reply_for svc s t).
  destruct (reply_for svc s t) as [[[|i types]|]|why]; simpl.
  - eexists. split; [reflexivity|].
    split; [|do 2 (simpl; rewrite ?update_treeEvents, ?update_calls); split; reflexivity].
    apply children_of_update. simpl.
    rewrite update_length. simpl. rewrite length_app. simpl. lia.
  - set (sorted := Array_sort (compareTypes localeCompare) (i :: types)).
    assert (Hlen : length sorted = S (length types)).
    { unfold sorted. by rewrite Array_sort_perm. }
    rewrite bool_decide_eq_false_2 by (rewrite length_seq, Hlen; lia).
    eexists _, _. split; [reflexivity|].
    split; [|split; [by rewrite length_seq|do 2 (simpl; rewrite ?update_treeEvents, ?update_calls); split; reflexivity]].
    apply children_of_update.
    rewrite update_length. simpl. rewrite length_app. lia.
  - eexists. split; [reflexivity|].
    split; [|do 2 (simpl; rewrite ?update_treeEvents, ?update_calls); split; reflexivity].
    apply children_of_update. simpl.
    rewrite update_length. simpl. lia.
  - eexists. split; [reflexivity|]. split; [|done].
    unfold children_of. simpl. by rewrite Ht; simpl; rewrite Hc.
Qed.

(** R1 under the root R0, asked for its tree item with prefetch on. *)
Lemma getTreeItem_prefetch_witness :
  ∃ s1, getTreeItem codeCompare one_child 0 1%nat prefetching
          = (Returned (TreeItem_of (TypeItem_new R1 (Some 0%nat))
                         (next_uri prefetching (TypeItem_new R1 (Some 0%nat))) None_), s1) ∧
        children_of s1 1%nat = Some (Some []) ∧
        treeEvents s1 = [Some 1%nat] ∧
        calls s1 = [(CmdSubtypes, R0); (CmdSubtypes, R1)].
Proof.
  apply (getTreeItem_prefetch codeCompare one_child 0 prefetching 1%nat
           (TypeItem_new R1 (Some 0%nat)));
    [reflexivity | compute_done | intros [[=] _] | reflexivity | reflexivity].
Defined.

(** X8: the top-level [getChildren()] returns the root sequence itself
    outside the class view.  In the class view it returns nothing when
    no root is a class, and otherwise exactly one node: the top of the
    climb from the first root that is a class; the other roots are not
    returned. *)
Theorem getChildren_top_level (localeCompare : string -> string -> Z)
    (svc : Service) (fuel : nat) (s : State) :
  (view s ≠ Class →
   getChildren localeCompare svc fuel None s = (Returned (roots s), s)) ∧
  (view s = Class →
   Forall (fun r => item_kind s r ≠ Some KindClass) (roots s) →
   getChildren localeCompare svc fuel None s = (Returned [], s)) ∧
  (view s = Class →
   ∀ before root after,
     roots s = (before ++ (root :: after))%list →
     Forall (fun r => item_kind s r ≠ Some KindClass) before →
     item_kind s root = Some KindClass →
     getChildren localeCompare svc fuel None s
     = match getClassViewRoot svc fuel root s with
       | (Returned top, s1) => (Returned [top], s1)
       | (Threw why, s1) => (Threw why, s1)
       | (Pending, s1) => (Pending, s1)
       end).
Proof.
  split; [|split].
  - intros Hv. unfold getChildren. step_async. by destruct (decide (view s = Class)).
  - intros Hv Hall. unfold getChildren. step_async.
    destruct (decide (view s = Class)); [|done].
    destruct (List.find _ (roots s)) as [root|] eqn:Hfind; [|done].
    apply find_some in Hfind as [Hin Hk]. apply list_elem_of_In in Hin.
    rewrite Forall_forall in Hall. apply bool_decide_eq_true_1 in Hk.
    by destruct (Hall root Hin).
  - intros Hv before root after Hroots Hbefore Hk. unfold getChildren. step_async.
    destruct (decide (view s = Class)); [|done].
    assert (Hfind : List.find (fun r => bool_decide (item_kind s r = Some KindClass))
                      (roots s) = Some root).
    { rewrite Hroots. clear Hroots.
      induction Hbefore as [|x before Hx Hbefore IH]; simpl.
      - by rewrite bool_decide_eq_true_2.
      - by rewrite bool_decide_eq_false_2. }
    rewrite Hfind.
    by destruct (getClassViewRoot svc fuel root s) as [[top| |] s1].
Qed.

(** Two classes as roots: only the first is climbed and returned. *)
Lemma getChildren_top_level_witness :
  getChildren codeCompare java 2 None (TypesModel_new Class false [R0; X])
  = match getClassViewRoot java 2 0%nat (TypesModel_new Class false [R0; X]) with
    | (Returned top, s1) => (Returned [top], s1)
    | (Threw why, s1) => (Threw why, s1)
    | (Pending, s1) => (Pending, s1)
    end.
Proof.
  apply (proj2 (proj2 (getChildren_top_level codeCompare java 2
                         (TypesModel_new Class false [R0; X]))) eq_refl [] 0%nat [1%nat]);
    [reflexivity | constructor | reflexivity].
Defined.

Lemma getClassViewRoot_top (svc : Service) (fuel : nat) (r : TypeItemRef)
    (s s1 : State) (top : TypeItemRef) :
  (r < length (heap s))%nat →
  getClassViewRoot svc fuel r s = (Returned top, s1) →
  (top = r ∧ parent_of s1 r = parent_of s r) ∨
  ((length (heap s) <= top)%nat ∧ parent_of s1 top = Some None).
Proof.
  revert r s. induction fuel as [|fuel IH]; intros r s Hlt; [discriminate|].
  destruct (lookup_lt_is_Some_2 _ _ Hlt) as [t Ht].
  rewrite (getClassViewRoot_step svc fuel r s t Ht).
  assert (Hbase : (Returned r, asked s r t) = (Returned top, s1) →
    (top = r ∧ parent_of s1 r = parent_of s r) ∨
    ((length (heap s) <= top)%nat ∧ parent_of s1 top = Some None)).
  { intros [= <- <-]. left. split; [done|]. unfold parent_of, asked. simpl.
    rewrite list_lookup_insert_eq by done. by rewrite Ht. }
  destruct (svc _ _ _) as [[sups|]|why]; [|done..].
  destruct (List.find is_class sups) as [y|]; [|done].
  intros Hrun. right.
  assert (Hnew : (length (heap s) < length (heap (linked s r t y)))%nat).
  { simpl. rewrite length_app, length_insert. simpl. lia. }
  destruct (IH _ _ Hnew Hrun) as [[-> Hpar]|[Hge Hpar]].
  - split; [done|]. rewrite Hpar. unfold parent_of, linked. simpl.
    rewrite lookup_app_r by (rewrite length_insert; lia).
    by rewrite length_insert, Nat.sub_diag.
  - split; [lia|done].
Qed.

(** X9: in the class view, when every root is an object of the store,
    the node the top-level [getChildren()] returns is either a root or a
    node made by this very call, which is then not in the root sequence
    and has no parent: [remove] of such a node changes nothing and fires
    no event. *)
Theorem class_view_top_is_not_removable (localeCompare : string -> string -> Z)
    (svc : Service) (fuel : nat) (s s1 : State) (top : TypeItemRef) :
  view s = Class →
  (∀ x, x ∈ roots s → (x < length (heap s))%nat) →
  getChildren localeCompare svc fuel None s = (Returned [top], s1) →
  top ∈ roots s ∨
  ((length (heap s) <= top)%nat ∧ (top ∉ roots s1) ∧
   parent_of s1 top = Some None ∧ remove top s1 = (Returned tt, s1)).
Proof.
  intros Hv Hroots Hrun. unfold getChildren in Hrun. revert Hrun. step_async.
  destruct (decide (view s = Class)); [|done].
  destruct (List.find _ (roots s)) as [root|] eqn:Hfind; [|discriminate].
  apply find_some in Hfind as [Hin _]. apply list_elem_of_In in Hin.
  destruct (getClassViewRoot svc fuel root s) as [[top'| |] s2] eqn:Hclimb;
    try discriminate.
  intros [= -> ->].
  destruct (getClassViewRoot_top svc fuel root s s1 top (Hroots _ Hin) Hclimb)
    as [[-> _]|[Hge Hpar]]; [by left|right].
  assert (Hnot : top ∉ roots s1).
  { destruct (getClassViewRoot_frame svc fuel root s) as (_ & Hr & _).
    rewrite Hclimb in Hr. simpl in Hr. rewrite Hr.
    intros Htop. apply Hroots in Htop. lia. }
  split; [done|]. split; [done|]. split; [done|].
  unfold parent_of in Hpar.
  destruct (heap s1 !! top) as [tt'|] eqn:Htop; [|discriminate].
  simpl in Hpar. injection Hpar as Hpar.
  rewrite (remove_spec s1 top tt' Htop). unfold includes.
  rewrite (bool_decide_eq_false_2 _ Hnot). by rewrite Hpar.
Qed.

Lemma class_view_top_is_not_removable_witness :
  let s1 := (getChildren codeCompare java 3 None class_session).2 in
  (1%nat ∉ roots s1) ∧ remove 1%nat s1 = (Returned tt, s1).
Proof.
  intros s1.
  destruct (class_view_top_is_not_removable codeCompare java 3 class_session s1 1%nat
              eq_refl) as [Hin|(_ & Hnot & _ & Hrm)].
  - intros x Hx. apply TypesModel_new_roots in Hx as [Hx _]. exact Hx.
  - reflexivity.
  - exfalso. revert Hin. compute_done.
  - split; assumption.
Defined.

(** ** What a session keeps *)

Lemma no_repeats_alt (s : State) :
  no_repeats s ↔ NoDup (roots s) ∧ Forall tidy (heap s).
Proof.
  unfold no_repeats, tidy. rewrite Forall_lookup. naive_solver.
Qed.

Lemma del_NoDup {A} `{EqDecision A} (l : list A) (e : A) :
  NoDup l → NoDup (del l e) ∧ e ∉ del l e.
Proof.
  intros Hnd. destruct (decide (e ∈ l)) as [Hin|Hnot].
  - destruct (del_present l e Hin) as (l1 & l2 & -> & Hl1 & ->).
    apply NoDup_app in Hnd as (Hnd1 & Hdisj & Hnd2).
    apply NoDup_cons in Hnd2 as [Hl2 Hnd2].
    split.
    + apply NoDup_app. split; [done|]. split; [|done].
      intros x Hx Hx2. apply (Hdisj x Hx). by right.
    + rewrite elem_of_app. tauto.
  - by rewrite del_absent.
Qed.

Lemma tidy_update (s : State) (e : TypeItemRef) (f : TypeItem -> TypeItem) :
  (∀ t, tidy t → heap s !! e = Some t → tidy (f t)) →
  no_repeats s → no_repeats (update e f s).
Proof.
  intros Hf [Hroots Hheap]%no_repeats_alt. apply no_repeats_alt.
  rewrite update_roots. split; [done|]. unfold update.
  destruct (heap s !! e) as [t|] eqn:Ht; [|done]. simpl.
  apply Forall_insert; [done|]. apply Hf; [|done].
  rewrite Forall_lookup in Hheap. by eapply Hheap.
Qed.

Section Tidy.
Variable localeCompare : string -> string -> Z.
Variable svc : Service.

Lemma getTypeChildren_tidy (e : TypeItemRef) (s : State) :
  no_repeats s → no_repeats (getTypeChildren localeCompare svc e s).2.
Proof.
  intros Hs. destruct (heap s !! e) as [t|] eqn:Ht.
  - rewrite (getTypeChildren_spec _ _ s e t Ht).
    destruct (children t); [done|].
    rewrite (_resolveTypes_spec _ _ s e t Ht).
    assert (Hgrow : ∀ types : list TypeHierarchyItem,
      no_repeats (set_heap (heap s ++ ((fun i => TypeItem_new i (Some e)) <$> types))
                    (sent s t))).
    { intros types. apply no_repeats_alt. apply no_repeats_alt in Hs as [Hr Hh].
      split; [done|]. simpl. apply Forall_app. split; [done|].
      apply Forall_fmap, Forall_forall. intros i _ cs. discriminate. }
    destruct (reply_for svc s t) as [[types|]|why]; simpl.
    + apply tidy_update; [|apply Hgrow].
      intros t0 _ _ cs [= <-]. apply NoDup_seq.
    + apply tidy_update; [intros t0 _ _ cs [= <-]; constructor|].
      apply no_repeats_alt. by apply no_repeats_alt in Hs.
    + apply no_repeats_alt. by apply no_repeats_alt in Hs.
  - unfold getTypeChildren. step_async. by rewrite Ht.
Qed.

Lemma getChildren_of_tidy (fuel : nat) (e : TypeItemRef) (s : State) :
  no_repeats s → no_repeats (getChildren localeCompare svc fuel (Some e) s).2.
Proof.
  intros Hs. rewrite getChildren_of_spec.
  pose proof (getTypeChildren_tidy e s Hs) as H1.
  destruct (getTypeChildren localeCompare svc e s) as [[cs| |] s1]; simpl in *; [|done..].
  destruct (bool_decide _); [|done].
  apply no_repeats_alt. by apply no_repeats_alt in H1.
Qed.

Lemma getTreeItem_tidy (fuel : nat) (e : TypeItemRef) (s : State) :
  no_repeats s → no_repeats (getTreeItem localeCompare svc fuel e s).2.
Proof.
  intros Hs.
  assert (Hs0 : no_repeats (set_uris (S (uris s)) s)).
  { apply no_repeats_alt. by apply no_repeats_alt in Hs. }
  destruct (heap s !! e) as [t|] eqn:Ht.
  - rewrite (getTreeItem_spec _ _ fuel e s t Ht). simpl.
    destruct (_ || _); [done|].
    destruct (bool_decide (children t = Some [])); [done|].
    destruct (negb (prefetch s)); [done|].
    pose proof (getChildren_of_tidy fuel e _ Hs0) as H1.
    rewrite getChildren_of_spec in *.
    destruct (getTypeChildren localeCompare svc e (set_uris (S (uris s)) s))
      as [[cs| |] s1] eqn:Hrun; simpl in *; [|done..].
    destruct (getTypeChildren_cached _ _ e _ _ _ Hrun) as (t1 & Ht1 & Hc1).
    apply tidy_update; [|done].
    intros t0 _ _ cs' [= <-].
    assert (Hs1 : no_repeats s1).
    { destruct (bool_decide _); [|done].
      apply no_repeats_alt. by apply no_repeats_alt in H1. }
    destruct Hs1 as [_ Hh]. by apply (Hh e t1).
  - unfold getTreeItem. step_async. by rewrite Ht.
Qed.

Lemma getClassViewRoot_tidy (fuel : nat) (r : TypeItemRef) (s : State) :
  no_repeats s → no_repeats (getClassViewRoot svc fuel r s).2.
Proof.
  revert r s. induction fuel as [|fuel IH]; intros r s Hs; [done|].
  destruct (heap s !! r) as [t|] eqn:Ht.
  - rewrite (getClassViewRoot_step svc fuel r s t Ht).
    apply no_repeats_alt in Hs as [Hr Hh].
    assert (Ht_tidy : tidy t) by (rewrite Forall_lookup in Hh; by eapply Hh).
    assert (Hasked : no_repeats (asked s r t)).
    { apply no_repeats_alt. split; [done|]. simpl. by apply Forall_insert. }
    destruct (svc _ _ _) as [[sups|]|why]; [|done..].
    destruct (List.find is_class sups) as [y|]; [|done].
    apply IH. apply no_repeats_alt. split; [done|]. simpl.
    apply Forall_app. split; [by apply Forall_insert|].
    constructor; [|done]. intros cs [= <-]. apply NoDup_singleton.
  - simpl. step_async. unfold update. by rewrite Ht; simpl; rewrite Ht.
Qed.

Lemma remove_tidy (it : TypeItemRef) (s : State) :
  no_repeats s → no_repeats (remove it s).2.
Proof.
  intros Hs. destruct (heap s !! it) as [t|] eqn:Ht.
  - rewrite (remove_spec s it t Ht).
    pose proof Hs as [Hr Hh]%no_repeats_alt.
    destruct (includes (roots s) it).
    + apply no_repeats_alt. split; [|done]. simpl. by apply del_NoDup.
    + destruct (parent t) as [p|]; [|done].
      destruct (heap s !! p) as [pt|] eqn:Hp; [|done].
      destruct (children pt) as [siblings|] eqn:Hc; [|done].
      apply no_repeats_alt. split; [done|]. simpl.
      apply Forall_insert; [done|]. intros cs [= <-].
      apply del_NoDup. destruct Hs as [_ Hch]. by apply (Hch p pt).
  - unfold remove. step_async. by rewrite Ht.
Qed.

Lemma run_op_tidy (o : Op) (s : State) :
  no_repeats s → no_repeats (run_op localeCompare svc o s).
Proof.
  intros Hs. destruct o as [fuel [e|]|fuel e|type|it|it u|it]; simpl.
  - by apply getChildren_of_tidy.
  - unfold getChildren. step_async.
    destruct (decide (view s = Class)); [|done].
    destruct (List.find _ (roots s)) as [root|]; [|done].
    change (no_repeats
      (bind (getClassViewRoot svc fuel root) (fun top => ret [top]) s).2).
    rewrite bind_ret_state. by apply getClassViewRoot_tidy.
  - by apply getTreeItem_tidy.
  - by apply getTypeChildren_tidy.
  - by apply remove_tidy.
  - unfold getEditorHighlights. step_async.
    destruct (heap s !! it); [|done]. apply no_repeats_alt.
    by apply no_repeats_alt in Hs.
  - unfold location. step_async.
    destruct (heap s !! it); [|done]. apply no_repeats_alt.
    by apply no_repeats_alt in Hs.
Qed.
End Tidy.

(** X10: in every state of a session the root sequence and every
    children array hold no node twice; so when [remove] returns, the
    node is no longer in the root sequence, nor, if it was not a root,
    in the children of its parent. *)
Theorem session_arrays_hold_no_node_twice (localeCompare : string -> string -> Z)
    (svc : Service) (v : TypeHierarchyView) (pre : bool)
    (items : list TypeHierarchyItem) (ops : list Op) :
  let s := run localeCompare svc ops (TypesModel_new v pre items) in
  no_repeats s ∧
  ∀ it s1, remove it s = (Returned tt, s1) →
    (it ∉ roots s1) ∧
    ∀ t p pt cs, heap s !! it = Some t → it ∉ roots s → parent t = Some p →
      heap s1 !! p = Some pt → children pt = Some cs → it ∉ cs.
Proof.
  intros s.
  assert (Hs : no_repeats s).
  { subst s. induction ops as [|o ops IH] using rev_ind.
    - split; [apply NoDup_seq|]. simpl. intros n t cs Ht Hc.
      rewrite list_lookup_fmap in Ht.
      destruct (items !! n); simpl in Ht; [|discriminate].
      injection Ht as <-. discriminate.
    - rewrite run_snoc. by apply run_op_tidy. }
  split; [done|]. intros it s1 Hrun.
  destruct (heap s !! it) as [t|] eqn:Ht; last first.
  { revert Hrun. unfold remove. step_async. by rewrite Ht. }
  rewrite (remove_spec s it t Ht) in Hrun.
  destruct Hs as [Hroots Hch].
  destruct (includes (roots s) it) eqn:Hin.
  - injection Hrun as <-. simpl. split; [by apply del_NoDup|].
    intros t' p pt cs _ Hnot. apply bool_decide_eq_true_1 in Hin. done.
  - apply bool_decide_eq_false_1 in Hin.
    assert (Hr1 : roots s1 = roots s).
    { destruct (parent t) as [p|]; [|by injection Hrun as <-].
      destruct (heap s !! p) as [pt|]; [|discriminate].
      destruct (children pt); by injection Hrun as <-. }
    split; [by rewrite Hr1|].
    intros t' p pt cs [= <-] _ Hp Hpt Hcs. rewrite Hp in Hrun.
    destruct (heap s !! p) as [pt0|] eqn:Hp0; [|discriminate].
    destruct (children pt0) as [siblings|] eqn:Hc0.
    + injection Hrun as <-. simpl in Hpt.
      rewrite list_lookup_insert_eq in Hpt by (by eapply lookup_lt_Some).
      injection Hpt as <-. simpl in Hcs. injection Hcs as <-.
      apply del_NoDup. by apply (Hch p pt0).
    + injection Hrun as <-. congruence.
Qed.

Lemma session_arrays_hold_no_node_twice_witness :
  let s := run codeCompare mixed [OpGetTypeChildren 0%nat]
             (TypesModel_new Subtype false [R0]) in
  children_of s 0%nat = Some (Some [1; 2; 3]%nat) ∧
  children_of (remove 2%nat s).2 0%nat = Some (Some [1; 3]%nat) ∧
  (2%nat ∉ [1; 3]%nat).
Proof.
  intros s. split; [reflexivity|]. split; [reflexivity|].
  destruct (session_arrays_hold_no_node_twice codeCompare mixed Subtype false [R0]
              [OpGetTypeChildren 0%nat]) as [_ Hrm].
  destruct (Hrm 2%nat (remove 2%nat s).2 eq_refl) as [_ Hchild].
  apply (Hchild (TypeItem_new R1 (Some 0%nat)) 0%nat
           (with_children (Some [1; 3]%nat) (TypeItem_new R0 None)) [1; 3]%nat);
    [reflexivity | compute_done | reflexivity | reflexivity | reflexivity].
Defined.

(** X11: across a session the view stays the one the model was built
    with, no object leaves the store and none changes its item, and the
    root sequence only loses nodes: every root of a later state is a
    root of every earlier state and still carries the item it was built
    from. *)
Theorem session_keeps_objects (localeCompare : string -> string -> Z)
    (svc : Service) (v : TypeHierarchyView) (pre : bool)
    (items : list TypeHierarchyItem) (ops1 ops2 : list Op) :
  let s1 := run localeCompare svc ops1 (TypesModel_new v pre items) in
  let s2 := run localeCompare svc ops2 s1 in
  view s2 = v ∧
  (∀ x, x ∈ roots s2 →
     x ∈ roots s1 ∧ (x < length items)%nat ∧ item_of s2 x = items !! x) ∧
  (∀ n t, heap s1 !! n = Some t →
     ∃ t', heap s2 !! n = Some t' ∧ item t' = item t).
Proof.
  intros s1 s2. set (s0 := TypesModel_new v pre items).
  assert (Hbelow : ∀ x, x ∈ roots s0 → (x < length items)%nat).
  { intros x Hx. by apply TypesModel_new_roots in Hx as [? _]. }
  pose proof (run_keeps_from localeCompare svc _ ops1 s0 Hbelow) as (Hv1 & Hr1 & Hh1).
  fold s1 in Hv1, Hr1, Hh1.
  assert (Hbelow1 : ∀ x, x ∈ roots s1 → (x < length items)%nat) by auto.
  pose proof (run_keeps_from localeCompare svc _ ops2 s1 Hbelow1) as (Hv2 & Hr2 & Hh2).
  fold s2 in Hv2, Hr2, Hh2.
  split; [rewrite Hv2; exact Hv1|]. split.
  - intros x Hx. split; [auto|]. split; [auto|].
    assert (Hlt : (x < length items)%nat) by auto.
    destruct (lookup_lt_is_Some_2 items x Hlt) as [i Hi].
    assert (H0 : heap s0 !! x = Some (TypeItem_new i None)).
    { simpl. by rewrite list_lookup_fmap, Hi. }
    destruct (Hh1 _ _ H0) as (t1 & Ht1 & Hi1 & _).
    destruct (Hh2 _ _ Ht1) as (t2 & Ht2 & Hi2 & _).
    unfold item_of. rewrite Ht2, Hi. simpl. by rewrite Hi2, Hi1.
  - intros n t Ht. destruct (Hh2 n t Ht) as (t' & Ht' & Hi & _). eauto.
Qed.

Lemma session_keeps_objects_witness :
  let s2 := run codeCompare java [OpGetChildren 3 None; OpRemove 0%nat]
              (TypesModel_new Class false [X; R0]) in
  roots s2 = [1%nat] ∧ item_of s2 1%nat = Some R0 ∧ item_of s2 0%nat = Some X.
Proof.
  intros s2. split; [reflexivity|].
  destruct (session_keeps_objects codeCompare java Class false [X; R0] []
              [OpGetChildren 3 None; OpRemove 0%nat]) as (_ & Hroots & Hheap).
  split.
  - apply (Hroots 1%nat). compute_done.
  - destruct (Hheap 0%nat (TypeItem_new X None) eq_refl) as (t' & Ht' & Hi).
    assert (Hs2 : heap s2 !! 0%nat = Some t') by exact Ht'.
    unfold item_of. rewrite Hs2. simpl. by rewrite Hi.
Defined.

(** ** The context and the commands *)

Lemma set_view_mirrored (v : TypeHierarchyView) (c : TypeHierarchyContext) :
  _ctxMode c = Some (_classViewSupport c) →
  _mem c !! _modeKey = Some (StoredBool (_classViewSupport c)) →
  mirrored (set_view v c).
Proof.
  intros Hmode Hmem. unfold mirrored. simpl.
  rewrite lookup_insert_eq, lookup_insert_ne by done. done.
Qed.

Lemma set_classViewSupport_mirrored (b : bool) (c : TypeHierarchyContext) :
  _ctxView c = Some (if decide (_view c = Supertype) then "supertype"
                     else if decide (_view c = Subtype) then "subtype"
                     else "class") →
  _mem c !! _viewKey = Some (StoredView (_view c)) →
  mirrored (set_classViewSupport b c).
Proof.
  intros Hview Hmem. unfold mirrored. simpl.
  rewrite lookup_insert_eq, lookup_insert_ne by done. done.
Qed.

Lemma clear_at_interface_spec (enabled : bool) (items : list TypeHierarchyItem) :
  clear_at_interface enabled items = enabled && no_interface items.
Proof.
  unfold clear_at_interface, no_interface. revert enabled.
  induction items as [|i items IH]; intros enabled; simpl.
  - by rewrite andb_true_r.
  - rewrite IH. destruct (is_interface i); simpl; [|done].
    by rewrite andb_false_r.
Qed.

Lemma run_command_mirrored (editor later : option Editor)
    (prepare : PrepareArgs -> Reply) (cmd : ExtensionCommand) (e : Extension) :
  mirrored (typeHierarchyContext e) →
  mirrored (typeHierarchyContext (run_command editor later prepare cmd e)).
Proof.
  intros Hm.
  assert (Hview : ∀ v c, mirrored c → mirrored (set_view v c)).
  { intros v c (_ & _ & ? & ?). by apply set_view_mirrored. }
  assert (Hmode : ∀ b c, mirrored c → mirrored (set_classViewSupport b c)).
  { intros b c (? & ? & _ & _). by apply set_classViewSupport_mirrored. }
  assert (Hset : ∀ v a old,
    mirrored (typeHierarchyContext (setTypesView prepare v a old e).2)).
  { intros v a old. unfold setTypesView.
    destruct a as [a|].
    - destruct (prepare _) as [[items|]|why]; simpl; auto.
    - destruct old as [[old|]|]; simpl; auto. }
  destruct cmd; [|apply Hset..].
  simpl. unfold showTypeHierarchy.
  destruct editor as [ed|]; [|done].
  destruct (prepare _) as [[[|i items]|]|why]; try done.
  unfold isClassViewSupported.
  destruct (languageId <$> later) as [lang|]; [destruct (_ && _)|];
    simpl; destruct (clear_at_interface _ _); simpl; auto.
Qed.

(** X12: after any sequence of the registered commands, whatever
    editors were active and whatever the hierarchy service answered,
    the two context keys and the two memento entries say what the
    context holds: the view under its name and the class view support
    flag. *)
Theorem context_keys_mirror_context (workspaceState : gmap string MementoValue)
    (l : list Invocation) :
  mirrored (typeHierarchyContext (run_commands l (register workspaceState))).
Proof.
  induction l as [|[[[editor later] prepare] cmd] l IH] using rev_ind.
  - simpl. unfold TypeHierarchyContext_new.
    apply set_classViewSupport_mirrored; simpl; [done|].
    by rewrite lookup_insert_eq.
  - unfold run_commands. rewrite foldl_app. simpl.
    by apply run_command_mirrored.
Qed.

Lemma class_view_language (lang : string) :
  bool_decide (lang ≠ "") && includes classViewLanguages lang
  = bool_decide (lang = "java").
Proof.
  unfold includes, classViewLanguages.
  destruct (decide (lang = "java")) as [->|Hne]; [done|].
  rewrite (bool_decide_eq_false_2 (lang = "java")) by done.
  apply andb_false_iff. right. apply bool_decide_eq_false_2.
  intros Hin. apply list_elem_of_singleton in Hin. done.
Qed.

Lemma class_view_language_of (active : option Editor) :
  match languageId <$> active with
  | Some lang => bool_decide (lang ≠ "") && includes classViewLanguages lang
  | None => false
  end = bool_decide (languageId <$> active = Some "java").
Proof.
  destruct active as [ed|]; simpl; [|done].
  rewrite class_view_language.
  destruct (decide (languageId ed = "java")) as [Hj|Hj].
  - rewrite !bool_decide_eq_true_2; congruence.
  - rewrite !bool_decide_eq_false_2; congruence.
Qed.

Lemma isClassViewSupported_spec (active : option Editor) (c : TypeHierarchyContext) :
  isClassViewSupported active c
  = (bool_decide (languageId <$> active = Some "java"),
     set_classViewSupport (bool_decide (languageId <$> active = Some "java")) c).
Proof.
  rewrite <- class_view_language_of. unfold isClassViewSupported.
  destruct (languageId <$> active) as [lang|]; [|done].
  by destruct (_ && _).
Qed.

(** X13: [showTypeHierarchy] does nothing at all without an active
    editor or when the service prepares no item.  Otherwise it shows a
    new input with the prepared items, at the location of the editor
    that was active when the command started, and sets the class view
    support flag to: the editor that is active once the service has
    answered (it may be another one, or none) is on a Java file and no
    prepared item is an interface.  When the flag is set the view
    becomes the class view; when it is not, the view is left as it was,
    so a context in the class view stays in the class view. *)
Theorem showTypeHierarchy_class_view (editor later : option Editor)
    (prepare : PrepareArgs -> Reply) (e : Extension) :
  let e' := (showTypeHierarchy editor later prepare e).2 in
  let c := typeHierarchyContext e in
  let c' := typeHierarchyContext e' in
  (_view c = Class → _view c' = Class) ∧
  (∀ ed i items,
     editor = Some ed →
     prepare (PrepareLocation (Location_at (document_uri ed) (selection_active ed)))
       = Fulfilled (Some (i :: items)) →
     let supported :=
       bool_decide (languageId <$> later = Some "java") && no_interface (i :: items) in
     _classViewSupport c' = supported ∧
     _view c' = (if supported then Class else _view c) ∧
     shown e' = (shown e ++
       [TypesTreeInput_new (Location_at (document_uri ed) (selection_active ed))
          (_view c') (i :: items)])%list) ∧
  (editor = None ∨
   (∀ ed, editor = Some ed →
      match prepare (PrepareLocation
                       (Location_at (document_uri ed) (selection_active ed))) with
      | Fulfilled (Some (_ :: _)) => False
      | _ => True
      end) →
   e' = e).
Proof.
  intros e' c c'.
  assert (Hshown : ∀ ed i items,
     editor = Some ed →
     prepare (PrepareLocation (Location_at (document_uri ed) (selection_active ed)))
       = Fulfilled (Some (i :: items)) →
     let supported :=
       bool_decide (languageId <$> later = Some "java") && no_interface (i :: items) in
     _classViewSupport c' = supported ∧
     _view c' = (if supported then Class else _view c) ∧
     shown e' = (shown e ++
       [TypesTreeInput_new (Location_at (document_uri ed) (selection_active ed))
          (_view c') (i :: items)])%list).
  { intros ed i items -> Hprep supported. subst e' c c' supported.
    unfold showTypeHierarchy. rewrite Hprep, isClassViewSupported_spec.
    rewrite clear_at_interface_spec.
    destruct (bool_decide (languageId <$> later = Some "java"));
      destruct (no_interface (i :: items)); done. }
  split; [|split; [exact Hshown|]].
  - intros Hc. subst e' c'. unfold showTypeHierarchy.
    destruct editor as [ed|]; [|done].
    destruct (prepare _) as [[[|i items]|]|why] eqn:Hprep; try done.
    destruct (Hshown ed i items eq_refl Hprep) as (_ & Hv & _).
    unfold showTypeHierarchy in Hv. rewrite Hprep in Hv. rewrite Hv.
    fold c. rewrite Hc. by destruct (_ && _).
  - intros Hnone. subst e'. unfold showTypeHierarchy.
    destruct editor as [ed|]; [|done].
    destruct Hnone as [[=]|Hnone]. specialize (Hnone ed eq_refl).
    by destruct (prepare _) as [[[|i items]|]|why].
Qed.

(** A class in a Java file, with the Java editor still active when the
    service answers, and with a TypeScript editor active by then. *)
Lemma showTypeHierarchy_class_view_witness :
  let stays := (showTypeHierarchy (Some java_editor) (Some java_editor)
                  (prepares [X]) (register ∅)).2 in
  let moved := (showTypeHierarchy (Some java_editor) (Some ts_editor)
                  (prepares [X]) (register ∅)).2 in
  (_classViewSupport (typeHierarchyContext stays) = true ∧
   _view (typeHierarchyContext stays) = Class) ∧
  (_classViewSupport (typeHierarchyContext moved) = false ∧
   _view (typeHierarchyContext moved) = Supertype).
Proof.
  intros stays moved. split.
  - destruct (showTypeHierarchy_class_view (Some java_editor) (Some java_editor)
                (prepares [X]) (register ∅)) as (_ & Hshown & _).
    destruct (Hshown java_editor X [] eq_refl eq_refl) as (Hsup & Hview & _).
    split; [exact Hsup | exact Hview].
  - destruct (showTypeHierarchy_class_view (Some java_editor) (Some ts_editor)
                (prepares [X]) (register ∅)) as (_ & Hshown & _).
    destruct (Hshown java_editor X [] eq_refl eq_refl) as (Hsup & Hview & _).
    split; [exact Hsup | exact Hview].
Defined.

Lemma find_none_all {A} (f : A -> bool) (l : list A) :
  Forall (fun x => f x = false) l → List.find f l = None.
Proof. induction 1 as [|x l Hx _ IH]; simpl; [done|]. by rewrite Hx. Qed.

(** A model in the class view none of whose items is a class shows
    nothing at the top level. *)
Lemma class_model_without_class (localeCompare : string -> string -> Z)
    (svc : Service) (fuel : nat) (pre : bool) (items : list TypeHierarchyItem) :
  Forall (fun i => kind i ≠ KindClass) items →
  getChildren localeCompare svc fuel None (TypesModel_new Class pre items)
  = (Returned [], TypesModel_new Class pre items).
Proof.
  intros Hall. unfold getChildren. step_async.
  rewrite find_none_all; [done|].
  apply Forall_forall. intros r Hr. apply elem_of_seq in Hr as [_ Hr].
  apply bool_decide_eq_false_2. unfold item_kind. simpl.
  rewrite list_lookup_fmap.
  destruct (lookup_lt_is_Some_2 items r) as [i Hi]; [lia|].
  rewrite Hi. simpl. intros [= Hk].
  rewrite Forall_forall in Hall. apply (Hall i); [|done].
  by eapply list_elem_of_lookup_2.
Qed.

(** X14: when the context is in the class view and the service prepares
    items none of which is a class (an interface, say),
    [showTypeHierarchy] shows an input titled "Class Hierarchy" whose
    [resolve] gives a model with one root per item and no message, and
    whose top-level [getChildren()] returns nothing and sends no
    command: the tree is empty although there are results. *)
Theorem class_view_without_class_is_empty (ed : Editor) (later : option Editor)
    (prepare : PrepareArgs -> Reply) (e : Extension)
    (i : TypeHierarchyItem) (items : list TypeHierarchyItem) :
  _view (typeHierarchyContext e) = Class →
  prepare (PrepareLocation (Location_at (document_uri ed) (selection_active ed)))
    = Fulfilled (Some (i :: items)) →
  Forall (fun i => kind i ≠ KindClass) (i :: items) →
  let e' := (showTypeHierarchy (Some ed) later prepare e).2 in
  ∃ input,
    shown e' = (shown e ++ [input])%list ∧
    title input = "Class Hierarchy" ∧
    input_items input = i :: items ∧
    ∀ pre, ∃ s,
      TypesTreeInput_resolve (_view (typeHierarchyContext e')) pre input = Some s ∧
      length (roots s) = S (length items) ∧
      message s = None ∧
      ∀ localeCompare svc fuel,
        getChildren localeCompare svc fuel None s = (Returned [], s).
Proof.
  intros Hview Hprep Hall e'.
  assert (Hv' : _view (typeHierarchyContext e') = Class).
  { subst e'. unfold showTypeHierarchy. rewrite Hprep.
    rewrite isClassViewSupported_spec.
    destruct (bool_decide _); destruct (clear_at_interface _ _); simpl; done. }
  assert (Hshown : shown e' = (shown e ++
      [TypesTreeInput_new (Location_at (document_uri ed) (selection_active ed))
         (_view (typeHierarchyContext e')) (i :: items)])%list).
  { subst e'. unfold showTypeHierarchy. rewrite Hprep.
    rewrite isClassViewSupported_spec.
    destruct (bool_decide _); destruct (clear_at_interface _ _); simpl; done. }
  eexists. split; [exact Hshown|]. rewrite Hv'.
  split; [done|]. split; [done|].
  intros pre. eexists. split; [reflexivity|].
  split; [simpl; by rewrite length_seq|]. split; [done|].
  intros localeCompare svc fuel. by apply class_model_without_class.
Qed.

(** A Java session on the class X, then the cursor on InterfaceI. *)
Lemma class_view_without_class_is_empty_witness :
  let e1 := (showTypeHierarchy (Some java_editor) (Some java_editor)
               (prepares [X]) (register ∅)).2 in
  let e2 := (showTypeHierarchy (Some java_editor) (Some java_editor)
               (prepares [InterfaceI]) e1).2 in
  ∃ input s,
    shown e2 = (shown e1 ++ [input])%list ∧
    title input = "Class Hierarchy" ∧
    TypesTreeInput_resolve (_view (typeHierarchyContext e2)) false input = Some s ∧
    getChildren codeCompare java 3 None s = (Returned [], s).
Proof.
  intros e1 e2.
  destruct (class_view_without_class_is_empty java_editor (Some java_editor)
              (prepares [InterfaceI]) e1
              InterfaceI [] eq_refl eq_refl) as (input & Hshown & Htitle & _ & Hres).
  { repeat constructor. discriminate. }
  destruct (Hres false) as (s & Hs & _ & _ & Hget).
  exists input, s. auto.
Defined.

(** X15: [setTypesView] on an anchor and [showTypeHierarchy] treat the
    same prepared items differently.  The former sets the class view
    support flag to "no item is an interface" without looking at any
    editor, and shows an input even for an empty list, an input whose
    [resolve] gives nothing; the latter requires as well that the
    editor active once the service has answered is on a Java file, and
    on an empty list does nothing at all. *)
Theorem setTypesView_and_showTypeHierarchy (ed : Editor) (later : option Editor)
    (prepare : PrepareArgs -> Reply) (v : TypeHierarchyView) (a : TypeItem)
    (old : option TreeInput) (e : Extension) (items : list TypeHierarchyItem) :
  (∀ args, prepare args = Fulfilled (Some items)) →
  let by_cursor := (showTypeHierarchy (Some ed) later prepare e).2 in
  let by_anchor := (setTypesView prepare v (Some a) old e).2 in
  _view (typeHierarchyContext by_anchor) = v ∧
  _classViewSupport (typeHierarchyContext by_anchor) = no_interface items ∧
  (∃ input, shown by_anchor = (shown e ++ [input])%list ∧
     title input = TypesTreeInput_title v ∧ input_items input = items ∧
     (items = [] → ∀ pre, TypesTreeInput_resolve v pre input = None)) ∧
  (items = [] → by_cursor = e) ∧
  (items ≠ [] →
   _classViewSupport (typeHierarchyContext by_cursor)
   = bool_decide (languageId <$> later = Some "java") && no_interface items).
Proof.
  intros Hprep by_cursor by_anchor.
  subst by_cursor by_anchor. unfold setTypesView, showTypeHierarchy.
  rewrite !Hprep. simpl. rewrite clear_at_interface_spec. simpl.
  split; [done|]. split; [done|]. split; [|split].
  - eexists. split; [reflexivity|]. split; [done|]. split; [done|].
    by intros -> pre.
  - by intros ->.
  - intros Hne. destruct items as [|i items]; [done|].
    rewrite isClassViewSupported_spec, clear_at_interface_spec.
    destruct (bool_decide (languageId <$> later = Some "java"));
      destruct (no_interface (i :: items)); done.
Qed.

(** A class of a TypeScript file: based on the node the flag is set,
    from the cursor it is not. *)
Lemma setTypesView_and_showTypeHierarchy_witness :
  _classViewSupport (typeHierarchyContext
    (setTypesView (prepares [R0]) Subtype (Some (TypeItem_new R0 None)) None
       (register ∅)).2) = true ∧
  _classViewSupport (typeHierarchyContext
    (showTypeHierarchy (Some ts_editor) (Some ts_editor) (prepares [R0])
       (register ∅)).2) = false.
Proof.
  destruct (setTypesView_and_showTypeHierarchy ts_editor (Some ts_editor)
              (prepares [R0]) Subtype (TypeItem_new R0 None) None (register ∅) [R0]
              (fun _ => eq_refl))
    as (_ & Hanchor & _ & _ & Hcursor).
  split; [exact Hanchor|]. exact (Hcursor ltac:(discriminate)).
Defined.

(** X16: [setTypesView] switches the view before it asks the service:
    when the command is rejected, when the service prepares nothing, and
    when there is neither an anchor nor an old type hierarchy input, the
    context is in the requested view, its key and its memento entry
    updated, while no input has been shown. *)
Theorem setTypesView_switches_view_first (prepare : PrepareArgs -> Reply)
    (v : TypeHierarchyView) (anchor : option TypeItem) (old : option TreeInput)
    (e : Extension) :
  let e' := (setTypesView prepare v anchor old e).2 in
  _view (typeHierarchyContext e') = v ∧
  _mem (typeHierarchyContext e') !! _viewKey = Some (StoredView v) ∧
  ((∃ a, anchor = Some a ∧
      match prepare (PrepareUriPosition
                       {| uri_object := ParsedUri (parsed e); uri_text := uri (item a) |}
                       (range_start (selectionRange (item a)))) with
      | Fulfilled (Some _) => False
      | _ => True
      end) ∨
   (anchor = None ∧ ∀ i, old ≠ Some (InputTypes i)) →
   shown e' = shown e ∧
   _classViewSupport (typeHierarchyContext e')
   = _classViewSupport (typeHierarchyContext e)).
Proof.
  intros e'. subst e'. unfold setTypesView.
  split; [|split].
  - destruct anchor as [a|].
    + by destruct (prepare _) as [[items|]|why].
    + by destruct old as [[i|]|].
  - destruct anchor as [a|].
    + destruct (prepare _) as [[items|]|why]; simpl;
        rewrite ?lookup_insert_ne by done; by rewrite lookup_insert_eq.
    + destruct old as [[i|]|]; simpl; by rewrite lookup_insert_eq.
  - intros [(a & -> & Hprep)|[-> Hold]].
    + simpl in Hprep. by destruct (prepare _) as [[items|]|why].
    + destruct old as [[i|]|]; [|done..]. by destruct (Hold i).
Qed.

Lemma setTypesView_switches_view_first_witness :
  let e' := (setTypesView (fun _ => Failed "no provider") Class
               (Some (TypeItem_new R0 None)) None (register ∅)).2 in
  _view (typeHierarchyContext e') = Class ∧ shown e' = [].
Proof.
  intros e'.
  destruct (setTypesView_switches_view_first (fun _ => Failed "no provider") Class
              (Some (TypeItem_new R0 None)) None (register ∅)) as (Hview & _ & Hshown).
  split; [exact Hview|]. apply Hshown. left. eexists. split; [reflexivity|]. exact I.
Defined.

(** ** Sessions: removing every root, the commands sent, endless climbs *)

Lemma del_head_seq (k m : nat) : del (seq k (S m)) k = seq (S k) m.
Proof. unfold del. simpl. by rewrite decide_True by done. Qed.

Lemma run_cons (localeCompare : string -> string -> Z) (svc : Service)
    (o : Op) (ops : list Op) (s : State) :
  run localeCompare svc (o :: ops) s
  = run localeCompare svc ops (run_op localeCompare svc o s).
Proof. reflexivity. Qed.

Lemma remove_roots_in_turn (localeCompare : string -> string -> Z) (svc : Service)
    (m k : nat) (s : State) :
  roots s = seq k m → (k + m <= length (heap s))%nat →
  let s' := run localeCompare svc (OpRemove <$> seq k m) s in
  roots s' = [] ∧ heap s' = heap s ∧
  modelEvents s' = (modelEvents s ++ replicate m PayloadModel)%list ∧
  treeEvents s' = (treeEvents s ++ replicate m None)%list.
Proof.
  revert k s. induction m as [|m IH]; intros k s Hroots Hlen s'; subst s'.
  - simpl. by rewrite !app_nil_r.
  - destruct (lookup_lt_is_Some_2 (heap s) k) as [t Ht]; [lia|].
    assert (Hstep : (remove k s).2
      = set_treeEvents (treeEvents s ++ [None])
          (set_modelEvents (modelEvents s ++ [PayloadModel])
             (set_roots (seq (S k) m) s))).
    { rewrite (remove_spec s k t Ht). unfold includes.
      rewrite bool_decide_eq_true_2 by (rewrite Hroots; simpl; left).
      simpl. by rewrite Hroots, del_head_seq. }
    change (OpRemove <$> seq k (S m))
      with (OpRemove k :: (OpRemove <$> seq (S k) m)).
    rewrite run_cons.
    change (run_op localeCompare svc (OpRemove k) s) with (remove k s).2.
    rewrite Hstep.
    set (s1 := set_treeEvents _ _).
    destruct (IH (S k) s1 eq_refl ltac:(simpl; lia)) as (Hr & Hh & Hm & Hte).
    split; [done|]. split; [done|].
    rewrite Hm, Hte. simpl. by rewrite <- !app_assoc.
Qed.

(** X17: [resolve] gives nothing exactly when the input has no item.
    Otherwise the model has one root per item and no message; removing
    the roots one after the other fires one change event for each, each
    forwarded to the tree as a full refresh, leaves every object in the
    store and ends with no root and the message "No results.". *)
Theorem resolve_then_remove_all_roots (localeCompare : string -> string -> Z)
    (svc : Service) (v : TypeHierarchyView) (pre : bool) (input : TypesTreeInput) :
  (TypesTreeInput_resolve v pre input = None ↔ input_items input = []) ∧
  ∀ s, TypesTreeInput_resolve v pre input = Some s →
    let n := length (input_items input) in
    let s' := run localeCompare svc (OpRemove <$> seq 0 n) s in
    roots s = seq 0 n ∧ message s = None ∧
    roots s' = [] ∧ message s' = Some "No results." ∧
    heap s' = heap s ∧
    modelEvents s' = replicate n PayloadModel ∧
    treeEvents s' = replicate n None.
Proof.
  assert (Hlen : length (roots (TypesModel_new v pre (input_items input)))
                 = length (input_items input)) by (simpl; apply length_seq).
  unfold TypesTreeInput_resolve. cbv zeta. rewrite Hlen. split.
  - case_bool_decide as Hn; [|split; [discriminate|]].
    + split; [|done]. intros _. by apply nil_length_inv.
    + intros Hnil. by rewrite Hnil in Hn.
  - intros s Hs. case_bool_decide as Hn; [discriminate|]. injection Hs as <-.
    destruct (remove_roots_in_turn localeCompare svc (length (input_items input)) 0
                (TypesModel_new v pre (input_items input)) eq_refl)
      as (Hr & Hh & Hm & Hte).
    { simpl. rewrite length_fmap. lia. }
    split; [done|].
    split; [unfold message; rewrite Hlen; by rewrite bool_decide_eq_false_2|].
    split; [exact Hr|].
    split; [unfold message; by rewrite Hr|]. split; [exact Hh|].
    split; [exact Hm | exact Hte].
Qed.

Lemma resolve_then_remove_all_roots_witness :
  let input := TypesTreeInput_new (Location_at (document_uri ts_editor)
                 (selection_active ts_editor)) Supertype [R0; R1; R2] in
  TypesTreeInput_resolve Supertype false input = Some three_roots ∧
  message (run codeCompare silent [OpRemove 0%nat; OpRemove 1%nat; OpRemove 2%nat]
             three_roots) = Some "No results.".
Proof.
  intros input. split; [reflexivity|].
  destruct (resolve_then_remove_all_roots codeCompare silent Supertype false input)
    as [_ Hall].
  destruct (Hall three_roots eq_refl) as (_ & _ & _ & Hmsg & _).
  exact Hmsg.
Defined.

Section CommandsSent.
Variable localeCompare : string -> string -> Z.
Variable svc : Service.

Lemma sends_nothing (P : Command -> Prop) (s s' : State) :
  view s' = view s → calls s' = calls s → sends P s s'.
Proof. intros Hv Hc. split; [done|]. exists []. by rewrite app_nil_r. Qed.

Lemma getTypeChildren_sends (e : TypeItemRef) (s : State) :
  sends (fun c => c = view_command (view s)) s
    (getTypeChildren localeCompare svc e s).2.
Proof.
  destruct (heap s !! e) as [t|] eqn:Ht.
  - rewrite (getTypeChildren_spec _ _ s e t Ht).
    destruct (children t); [by apply sends_nothing|].
    rewrite (_resolveTypes_spec _ _ s e t Ht).
    assert (Hsent : ∀ s1, view s1 = view s →
      calls s1 = (calls s ++ [(view_command (view s), item t)])%list →
      sends (fun c => c = view_command (view s)) s s1).
    { intros s1 Hv Hc. split; [done|]. eexists. split; [exact Hc|].
      by repeat constructor. }
    destruct (reply_for svc s t) as [[types|]|why]; simpl; apply Hsent;
      by rewrite ?update_view, ?update_calls.
  - apply sends_nothing; unfold getTypeChildren; step_async; by rewrite Ht.
Qed.

Lemma getClassViewRoot_sends (fuel : nat) (r : TypeItemRef) (s : State) :
  sends (fun c => c = CmdSupertypes) s (getClassViewRoot svc fuel r s).2.
Proof.
  revert r s. induction fuel as [|fuel IH]; intros r s; [by apply sends_nothing|].
  destruct (heap s !! r) as [t|] eqn:Ht.
  - rewrite (getClassViewRoot_step svc fuel r s t Ht).
    assert (Hasked : ∀ c : Completion TypeItemRef,
      sends (fun c => c = CmdSupertypes) s (c, asked s r t).2).
    { intros c. split; [done|]. eexists. split; [reflexivity|]. by repeat constructor. }
    destruct (svc _ _ _) as [[sups|]|why]; [|apply Hasked..].
    destruct (List.find is_class sups) as [y|]; [|apply Hasked].
    destruct (IH (length (heap s)) (linked s r t y)) as (Hv & extra & Hc & Hall).
    split; [done|]. exists ((CmdSupertypes, item t) :: extra).
    split; [rewrite Hc; simpl; by rewrite <- app_assoc|].
    by constructor.
  - apply sends_nothing; simpl; step_async; unfold update; by rewrite Ht; simpl; rewrite Ht.
Qed.

Lemma run_op_sends (o : Op) (s : State) :
  sends (fun c => c = view_command (view s) ∨ (view s = Class ∧ c = CmdSupertypes))
    s (run_op localeCompare svc o s).
Proof.
  assert (Hweaken : ∀ s', sends (fun c => c = view_command (view s)) s s' →
    sends (fun c => c = view_command (view s) ∨ (view s = Class ∧ c = CmdSupertypes))
      s s').
  { intros s' (Hv & extra & Hc & Hall). split; [done|]. exists extra.
    split; [done|]. eapply Forall_impl; [exact Hall|]. by left. }
  assert (Hchildren : ∀ fuel e s0, view s0 = view s → calls s0 = calls s →
    sends (fun c => c = view_command (view s)) s
      (getChildren localeCompare svc fuel (Some e) s0).2).
  { intros fuel e s0 Hv0 Hc0. rewrite getChildren_of_spec.
    destruct (getTypeChildren_sends e s0) as (Hv1 & extra & Hc1 & Hall).
    rewrite Hv0 in Hv1, Hall. rewrite Hc0 in Hc1.
    destruct (getTypeChildren localeCompare svc e s0) as [[cs| |] s1]; simpl in *.
    - destruct (bool_decide _); (split; [done|]); by exists extra.
    - split; [done|]. by exists extra.
    - split; [done|]. by exists extra. }
  destruct o as [fuel [e|]|fuel e|type|it|it u|it]; simpl.
  - by apply Hweaken, Hchildren.
  - unfold getChildren. step_async.
    destruct (decide (view s = Class)) as [Hv|]; [|by apply sends_nothing].
    destruct (List.find _ (roots s)) as [root|]; [|by apply sends_nothing].
    change (sends (fun c => c = view_command (view s) ∨ (view s = Class ∧ c = CmdSupertypes)) s
      (bind (getClassViewRoot svc fuel root) (fun top => ret [top]) s).2).
    rewrite bind_ret_state.
    destruct (getClassViewRoot_sends fuel root s) as (Hv' & extra & Hc & Hall).
    split; [done|]. exists extra. split; [done|].
    eapply Forall_impl; [exact Hall|]. intros c ->. by right.
  - apply Hweaken. destruct (heap s !! e) as [t|] eqn:Ht.
    + rewrite (getTreeItem_spec _ _ fuel e s t Ht). simpl.
      destruct (_ || _); [by apply sends_nothing|].
      destruct (bool_decide (children t = Some [])); [by apply sends_nothing|].
      destruct (negb (prefetch s)); [by apply sends_nothing|].
      pose proof (Hchildren fuel e (set_uris (S (uris s)) s) eq_refl eq_refl) as H1.
      destruct (getChildren localeCompare svc fuel (Some e) _) as [[cs| |] s1];
        simpl in *; [|done..].
      destruct H1 as (Hv1 & extra & Hc1 & Hall).
      split; [unfold update; by destruct (heap s1 !! e)|].
      exists extra. by rewrite update_calls.
    + apply sends_nothing; unfold getTreeItem; step_async; by rewrite Ht.
  - apply Hweaken, getTypeChildren_sends.
  - apply sends_nothing.
    + by destruct (remove_keeps 0 it s) as (Hv & _).
    + destruct (heap s !! it) as [t|] eqn:Ht.
      * rewrite (remove_spec s it t Ht).
        destruct (includes (roots s) it); [done|].
        destruct (parent t) as [p|]; [|done].
        destruct (heap s !! p) as [pt|]; [|done].
        by destruct (children pt).
      * unfold remove. step_async. by rewrite Ht.
  - apply sends_nothing; unfold getEditorHighlights; step_async;
      by destruct (heap s !! it).
  - apply sends_nothing; unfold location; step_async; by destruct (heap s !! it).
Qed.
End CommandsSent.

(** X18: in a session, every command sent for children is the one of
    the view: supertypes in the supertype view, subtypes in the subtype
    view and in the class view; the only other commands are the
    supertypes commands of the climb, and they are sent in the class
    view only. *)
Theorem session_commands_follow_view (localeCompare : string -> string -> Z)
    (svc : Service) (v : TypeHierarchyView) (pre : bool)
    (items : list TypeHierarchyItem) (ops : list Op) :
  let s := run localeCompare svc ops (TypesModel_new v pre items) in
  view s = v ∧
  Forall (fun c => c.1 = view_command v ∨ (v = Class ∧ c.1 = CmdSupertypes)) (calls s).
Proof.
  intros s. subst s. induction ops as [|o ops IH] using rev_ind; [by split|].
  rewrite run_snoc. destruct IH as [Hv Hall].
  destruct (run_op_sends localeCompare svc o
              (run localeCompare svc ops (TypesModel_new v pre items)))
    as (Hv' & extra & Hc & Hextra).
  split; [congruence|]. rewrite Hc. apply Forall_app. split; [done|].
  by rewrite Hv in Hextra.
Qed.

(** X19: no cycle is detected in the climb.  Against a service that
    answers every supertypes command with a list holding a class, the
    climb from a node of the store does not return within any number of
    steps, and each step adds one node to the store. *)
Theorem getClassViewRoot_endless (svc : Service) (fuel : nat)
    (r : TypeItemRef) (s : State) :
  (∀ n i, ∃ supertypes y, svc n CmdSupertypes i = Fulfilled (Some supertypes) ∧
                          List.find is_class supertypes = Some y) →
  (r < length (heap s))%nat →
  (getClassViewRoot svc fuel r s).1 = Pending ∧
  length (heap (getClassViewRoot svc fuel r s).2) = (length (heap s) + fuel)%nat.
Proof.
  intros Hsvc. revert r s. induction fuel as [|fuel IH]; intros r s Hlt.
  - simpl. split; [done|lia].
  - destruct (lookup_lt_is_Some_2 _ _ Hlt) as [t Ht].
    rewrite (getClassViewRoot_step svc fuel r s t Ht).
    destruct (Hsvc (length (calls s)) (item t)) as (sups & y & -> & ->).
    assert (Hlen : length (heap (linked s r t y)) = S (length (heap s))).
    { simpl. rewrite length_app, length_insert. simpl. lia. }
    destruct (IH (length (heap s)) (linked s r t y)) as [Hp Hl]; [lia|].
    split; [done|]. rewrite Hl, Hlen. lia.
Qed.

(** Every class extends the class ClassY, ClassY itself included. *)
Lemma getClassViewRoot_endless_witness :
  (getClassViewRoot (fun _ _ _ => Fulfilled (Some [InterfaceI; ClassY])) 5 0%nat
     class_session).1 = Pending ∧
  length (heap (getClassViewRoot (fun _ _ _ => Fulfilled (Some [InterfaceI; ClassY])) 5
                  0%nat class_session).2) = 6%nat.
Proof.
  apply (getClassViewRoot_endless (fun _ _ _ => Fulfilled (Some [InterfaceI; ClassY]))
           5 0%nat class_session).
  - intros n i. exists [InterfaceI; ClassY], ClassY. split; reflexivity.
  - simpl. lia.
Defined.
